(** * kubeadm release-version resolution (cmd/kubeadm/app/util/version.go)

    A shallow embedding of the helpers of [version.go]:
    [KubernetesReleaseVersion], [KubernetesVersionToImageTag],
    [KubernetesIsCIVersion], [normalizedBuildVersion], [splitVersion],
    [fetchFromURL] and [kubeadmVersion].

    A Go [string] is a sequence of bytes; it is modelled as [list ascii]
    (an [ascii] is one byte).  The three package-level regular expressions
    are compiled by hand into boolean matchers; the matchers of
    [kubeReleaseRegex] and [kubeBucketPrefixes] are proved equivalent to a
    declarative reading of their regular expressions. *)

From Stdlib Require Import Bool List Ascii String NArith ZArith Lia.
Import ListNotations.

Abbreviation gostring := (list ascii).

(** String literals of the Go source. *)
Definition lit (s : string) : gostring := list_ascii_of_string s.

(** ** Character classes *)

Definition in_range (lo hi : nat) (c : ascii) : bool :=
  (lo <=? nat_of_ascii c) && (nat_of_ascii c <=? hi).

Definition is_digit (c : ascii) : bool := in_range 48 57 c.
Definition is_nonzero_digit (c : ascii) : bool := in_range 49 57 c.
(** [[:lower:]] *)
Definition is_lower (c : ascii) : bool := in_range 97 122 c.
Definition is_upper (c : ascii) : bool := in_range 65 90 c.
Definition is_alnum (c : ascii) : bool := is_digit c || is_lower c || is_upper c.
(** [\w] in RE2: [[0-9A-Za-z_]] *)
Definition is_word (c : ascii) : bool := is_alnum c || Ascii.eqb c "_".

(** [[-0-9a-zA-Z_\.+]], the suffix class of [kubeReleaseRegex] *)
Definition release_suffix_class (c : ascii) : bool :=
  Ascii.eqb c "-" || is_alnum c || Ascii.eqb c "_" || Ascii.eqb c "." ||
  Ascii.eqb c "+".

(** [[-\w_\.]], the class of [kubeReleaseLabelRegex] *)
Definition label_class (c : ascii) : bool :=
  Ascii.eqb c "-" || is_word c || Ascii.eqb c "_" || Ascii.eqb c ".".

(** [[-\w_\.+]], the class of [kubeBucketPrefixes] *)
Definition bucket_class (c : ascii) : bool :=
  Ascii.eqb c "-" || is_word c || Ascii.eqb c "_" || Ascii.eqb c "." ||
  Ascii.eqb c "+".

(** [[-a-zA-Z0-9_\.]], the complement of the class replaced by
    [KubernetesVersionToImageTag] *)
Definition image_tag_class (c : ascii) : bool :=
  Ascii.eqb c "-" || is_alnum c || Ascii.eqb c "_" || Ascii.eqb c ".".

(** ** Small string helpers of the Go standard library *)

(** [strings.HasPrefix] *)
Fixpoint HasPrefix (s prefix : gostring) : bool :=
  match prefix, s with
  | [], _ => true
  | p :: ps, c :: cs => Ascii.eqb c p && HasPrefix cs ps
  | _ :: _, [] => false
  end.

(** The longest prefix of digits, and the rest. *)
Fixpoint span_digits (s : gostring) : gostring * gostring :=
  match s with
  | [] => ([], [])
  | c :: t =>
      if is_digit c then let (a, r) := span_digits t in (c :: a, r)
      else ([], s)
  end.

(** [strings.Split(s, sep)] for a one-byte separator. *)
Fixpoint Split (s : gostring) (sep : ascii) : list gostring :=
  match s with
  | [] => [[]]
  | c :: t =>
      if Ascii.eqb c sep then [] :: Split t sep
      else match Split t sep with
           | [] => [[c]]
           | x :: xs => (c :: x) :: xs
           end
  end.

(** ** kubeReleaseRegex

    ^v?(0|[1-9][0-9]* )\.(0|[1-9][0-9]* )\.(0|[1-9][0-9]* )([-0-9a-zA-Z_\.+]* )?$
    (a space is inserted before each closing parenthesis that follows a star).

    The optional [v] is taken exactly when the string starts with [v] (a
    digit must follow it otherwise).  Digits are not dots, so the first two
    numbers are the maximal digit runs before each dot.  The suffix class
    contains the digits, so the third number together with the suffix is any
    digit followed by suffix characters. *)

(** The group (0|[1-9][0-9]* ) *)
Definition is_dec_number (a : gostring) : bool :=
  match a with
  | [] => false
  | d :: t =>
      if Ascii.eqb d "0" then match t with [] => true | _ => false end
      else is_nonzero_digit d && forallb is_digit t
  end.

Definition strip_v (s : gostring) : gostring :=
  match s with
  | c :: t => if Ascii.eqb c "v" then t else s
  | [] => s
  end.

Definition kubeReleaseRegex (s : gostring) : bool :=
  let (a, r1) := span_digits (strip_v s) in
  match r1 with
  | c1 :: r1' =>
      Ascii.eqb c1 "." &&
      let (b, r2) := span_digits r1' in
      match r2 with
      | c2 :: d :: t =>
          Ascii.eqb c2 "." && is_dec_number a && is_dec_number b &&
          is_digit d && forallb release_suffix_class t
      | _ => false
      end
  | [] => false
  end.

(** ** kubeReleaseLabelRegex: [^[[:lower:]]+(-[-\w_\.]+)?$] *)

Fixpoint span_lower (s : gostring) : gostring * gostring :=
  match s with
  | [] => ([], [])
  | c :: t =>
      if is_lower c then let (a, r) := span_lower t in (c :: a, r)
      else ([], s)
  end.

Definition kubeReleaseLabelRegex (s : gostring) : bool :=
  let (a, r) := span_lower s in
  match a with
  | [] => false
  | _ =>
      match r with
      | [] => true
      | c :: t =>
          Ascii.eqb c "-" &&
          match t with [] => false | _ => forallb label_class t end
      end
  end.

(** ** kubeBucketPrefixes: [^((release|ci|ci-cross)/)?([-\w_\.+]+)$]

    [FindAllStringSubmatch(version, 1)] returns the groups 2 and 3 of the
    match (an unmatched group is the empty string).  The class of group 3
    has no [/], so a matching string has at most one [/], right after the
    prefix, and the match is unique. *)

(** The part before the first [sep], and the part after it if any. *)
Fixpoint break_at (sep : ascii) (s : gostring) : gostring * option gostring :=
  match s with
  | [] => ([], None)
  | c :: t =>
      if Ascii.eqb c sep then ([], Some t)
      else let (p, r) := break_at sep t in (c :: p, r)
  end.

Definition break_slash (s : gostring) : gostring * option gostring :=
  break_at "/" s.

Definition is_bucket_name (p : gostring) : bool :=
  let is (s : string) := if list_eq_dec ascii_dec p (lit s) then true else false in
  is "release"%string || is "ci"%string || is "ci-cross"%string.

Definition nonempty (s : gostring) : bool :=
  match s with [] => false | _ => true end.

(** [Some (subs[0][2], subs[0][3])] when the regular expression matches. *)
Definition kubeBucketPrefixes (s : gostring) : option (gostring * gostring) :=
  match break_slash s with
  | (p, None) =>
      if nonempty p && forallb bucket_class p then Some ([], p) else None
  | (p, Some r) =>
      if is_bucket_name p && nonempty r && forallb bucket_class r
      then Some (p, r) else None
  end.

(** ** Errors and results *)

(** The errors the helpers return; [ErrStatus404] is [status404Error]. *)
Inductive goerror :=
| ErrInvalidVersion (version : gostring)        (* "invalid version %q" *)
| ErrNoPattern (version : gostring)             (* "version %q doesn't match patterns ..." *)
| ErrGetURL (url msg : gostring)                (* "unable to get URL %q: %s" *)
| ErrStatus404 (url status : gostring)          (* status404Error *)
| ErrStatus (url status : gostring)             (* "unable to fetch file. URL: %q, status: %v" *)
| ErrReadURL (url msg : gostring)               (* "unable to read content of URL %q: %s" *)
| ErrKubeadmVersion (info : gostring).          (* "kubeadm version error: %v" *)

Inductive result (A : Type) :=
| Ok (a : A)
| Err (e : goerror).
Arguments Ok {A} a.
Arguments Err {A} e.

Definition isStatus404Error (err : goerror) : bool :=
  match err with ErrStatus404 _ _ => true | _ => false end.

(** ** normalizedBuildVersion *)

Definition normalizedBuildVersion (version : gostring) : gostring :=
  if kubeReleaseRegex version then
    if HasPrefix version (lit "v") then version else "v"%char :: version
  else [].

(** ** splitVersion *)

Definition kubeReleaseBucketURL : gostring := lit "https://dl.k8s.io".

Definition splitVersion (version : gostring) : result (gostring * gostring) :=
  match kubeBucketPrefixes version with
  | None => Err (ErrInvalidVersion version)
  | Some (sub2, sub3) =>
      let urlSuffix := if HasPrefix sub2 (lit "ci") then sub2 else lit "release" in
      let url := kubeReleaseBucketURL ++ "/"%char :: urlSuffix in
      Ok (url, sub3)
  end.

(** ** KubernetesIsCIVersion *)

Definition KubernetesIsCIVersion (version : gostring) : bool :=
  match kubeBucketPrefixes version with
  | Some (sub2, _) => HasPrefix sub2 (lit "ci")
  | None => false
  end.

(** ** UTF-8 decoding

    Go's [regexp] and [strings] packages read a string rune by rune with
    [utf8.DecodeRuneInString]: a valid encoding of 2, 3 or 4 bytes is one
    rune; any other byte is one rune on its own ([RuneError], width 1). *)

Definition byte_in (lo hi : nat) (b : ascii) : bool := in_range lo hi b.
Definition cont (b : ascii) : bool := byte_in 128 191 b.

Definition utf8_2 (b0 b1 : ascii) : bool := byte_in 194 223 b0 && cont b1.

Definition utf8_3 (b0 b1 b2 : ascii) : bool :=
  let n0 := nat_of_ascii b0 in
  ((n0 =? 224) && byte_in 160 191 b1 ||
   (((225 <=? n0) && (n0 <=? 236)) || (238 <=? n0) && (n0 <=? 239)) && cont b1 ||
   (n0 =? 237) && byte_in 128 159 b1) && cont b2.

Definition utf8_4 (b0 b1 b2 b3 : ascii) : bool :=
  let n0 := nat_of_ascii b0 in
  ((n0 =? 240) && byte_in 144 191 b1 ||
   (241 <=? n0) && (n0 <=? 243) && cont b1 ||
   (n0 =? 244) && byte_in 128 143 b1) && cont b2 && cont b3.

(** The runes of a string, each as the bytes that encode it. *)
Fixpoint runes (s : gostring) : list gostring :=
  match s with
  | [] => []
  | b0 :: s1 =>
      match s1 with
      | [] => [[b0]]
      | b1 :: s2 =>
          if utf8_2 b0 b1 then [b0; b1] :: runes s2 else
          match s2 with
          | [] => [b0] :: runes s1
          | b2 :: s3 =>
              if utf8_3 b0 b1 b2 then [b0; b1; b2] :: runes s3 else
              match s3 with
              | [] => [b0] :: runes s1
              | b3 :: s4 =>
                  if utf8_4 b0 b1 b2 b3 then [b0; b1; b2; b3] :: runes s4
                  else [b0] :: runes s1
              end
          end
      end
  end.

(** ** strings.TrimSpace

    [unicode.IsSpace] on the encoding of a rune: '\t', '\n', '\v', '\f',
    '\r', ' ', U+0085, U+00A0, U+1680, U+2000 to U+200A, U+2028, U+2029,
    U+202F, U+205F and U+3000.  Runes are read from the left; every rune
    starts at a byte that is not a continuation byte, so this gives the same
    runes at the end of the string as [utf8.DecodeLastRuneInString]. *)
Definition IsSpace (r : gostring) : bool :=
  match map nat_of_ascii r with
  | [n] => ((9 <=? n) && (n <=? 13)) || (n =? 32)
  | [194; n] => (n =? 133) || (n =? 160)
  | [225; 154; 128] => true
  | [226; 128; n] => (n <=? 138) || (n =? 168) || (n =? 169) || (n =? 175)
  | [226; 129; 159] => true
  | [227; 128; 128] => true
  | _ => false
  end.

Fixpoint drop_spaces (rs : list gostring) : list gostring :=
  match rs with
  | [] => []
  | r :: rs' => if IsSpace r then drop_spaces rs' else rs
  end.

Definition TrimSpace (s : gostring) : gostring :=
  List.concat (rev (drop_spaces (rev (drop_spaces (runes s))))).

(** ** KubernetesVersionToImageTag

    [regexp.MustCompile("[^-a-zA-Z0-9_\.]").ReplaceAllString(version, "_")]:
    every rune outside the class (an invalid byte included) becomes one [_]. *)
Definition replace_rune (r : gostring) : gostring :=
  match r with
  | [c] => if image_tag_class c then [c] else ["_"%char]
  | _ => ["_"%char]
  end.

Definition KubernetesVersionToImageTag (version : gostring) : gostring :=
  List.concat (map replace_rune (runes version)).

(** ** The client version

    Modelled from the spec: [versionutil.ParseSemantic] (package
    pkg/util/version, not part of this file).  The spec calls its input "a
    semantic-version string that may carry build metadata and a
    multi-segment pre-release label (e.g., v1.9.0-alpha.0.1234+abcdef)" and
    says that major, minor and patch are parsed numerically.  Modelled as an
    optional [v], three dot-separated numbers without leading zeros, then an
    optional [-] pre-release and an optional [+] build metadata, each a
    dot-separated list of non-empty identifiers over [[0-9A-Za-z-]]. *)
Record Version := mkVersion {
  Major : N;
  Minor : N;
  Patch : N;
  PreRelease : gostring;
  BuildMetadata : gostring
}.

Definition ident_class (c : ascii) : bool := is_alnum c || Ascii.eqb c "-".

Definition dot_idents (s : gostring) : bool :=
  forallb (fun seg => nonempty seg && forallb ident_class seg) (Split s ".").

Definition N_of_digits (s : gostring) : N :=
  fold_left (fun acc d => acc * 10 + (N_of_ascii d - 48))%N s 0%N.

Definition parse_extra (r : gostring) : option (gostring * gostring) :=
  match r with
  | [] => Some ([], [])
  | c :: t =>
      if Ascii.eqb c "-" then
        let (pre, build) := break_at "+" t in
        if dot_idents pre then
          match build with
          | None => Some (pre, [])
          | Some b => if dot_idents b then Some (pre, b) else None
          end
        else None
      else if Ascii.eqb c "+" then
        if dot_idents t then Some ([], t) else None
      else None
  end.

Definition ParseSemantic (str : gostring) : option Version :=
  let (a, r1) := span_digits (strip_v str) in
  match r1 with
  | c1 :: r1' =>
      if negb (Ascii.eqb c1 ".") then None else
      let (b, r2) := span_digits r1' in
      match r2 with
      | c2 :: r2' =>
          if negb (Ascii.eqb c2 ".") then None else
          let (c, r3) := span_digits r2' in
          if is_dec_number a && is_dec_number b && is_dec_number c then
            match parse_extra r3 with
            | Some (pre, build) =>
                Some (mkVersion (N_of_digits a) (N_of_digits b) (N_of_digits c)
                        pre build)
            | None => None
            end
          else None
      | [] => None
      end
  | [] => None
  end.

(** [fmt]'s [%d]: the decimal digits of a number. *)
Fixpoint dec_aux (fuel : nat) (n : N) (acc : gostring) : gostring :=
  match fuel with
  | O => acc
  | S f =>
      let acc' := ascii_of_N (48 + n mod 10)%N :: acc in
      if (n <? 10)%N then acc' else dec_aux f (n / 10)%N acc'
  end.

Definition fmt_d (n : N) : gostring := dec_aux (S (N.size_nat n)) n [].

(** ** kubeadmVersion *)

Definition kubeadmVersion (info : gostring) : result gostring :=
  match ParseSemantic info with
  | None => Err (ErrKubeadmVersion info)
  | Some v =>
      let pre := PreRelease v in
      let pre :=
        if 0 <? List.length pre then
          let split := Split pre "." in
          let pre :=
            if 2 <? List.length split then
              nth 0 split [] ++ "."%char :: nth 1 split []
            else if List.length split <? 2 then
              nth 0 split [] ++ lit ".0"
            else pre in
          "-"%char :: pre
        else pre in
      Ok ("v"%char :: fmt_d (Major v) ++ "."%char :: fmt_d (Minor v) ++
          "."%char :: fmt_d (Patch v) ++ pre)
  end.

(** ** The network

    One HTTP GET: a connection-level error (a timeout included), or a
    response with its status code, status text and body (whose reading may
    fail). *)
Inductive http_body :=
| BodyOk (b : gostring)
| BodyReadErr (msg : gostring).

Inductive http_response :=
| ConnError (msg : gostring)
| Response (code : Z) (status : gostring) (body : http_body).

Section Resolve.

(** The release server: its answer may depend on the URLs fetched before
    (oldest first), so the server needs not answer the same way twice. *)
Variable http_get : list gostring -> gostring -> http_response.

(** [pkgversion.Get().String()], the version of the running client. *)
Variable client_version : gostring.

(** [fetchFromURL(url, getReleaseVersionTimeout)], [hist] being the URLs
    fetched before. *)
Definition fetchFromURL (hist : list gostring) (url : gostring) : result gostring :=
  match http_get hist url with
  | ConnError msg => Err (ErrGetURL url msg)
  | Response code status body =>
      if negb (code =? 200)%Z then
        if (code =? 404)%Z then Err (ErrStatus404 url status)
        else Err (ErrStatus url status)
      else
        match body with
        | BodyReadErr msg => Err (ErrReadURL url msg)
        | BodyOk b => Ok (TrimSpace b)
        end
  end.

(** [KubernetesReleaseVersion].  The recursion of the source has no bound;
    [fuel] bounds the number of calls ([None] when it runs out).  Besides
    the result, it returns the URLs fetched so far. *)
Fixpoint KubernetesReleaseVersion (fuel : nat) (hist : list gostring)
    (version : gostring) : option (result gostring * list gostring) :=
  match fuel with
  | O => None
  | S fuel' =>
      match normalizedBuildVersion version with
      | (_ :: _) as ver => Some (Ok ver, hist)
      | [] =>
          match splitVersion version with
          | Err err => Some (Err err, hist)
          | Ok (bucketURL, versionLabel) =>
              match normalizedBuildVersion versionLabel with
              | (_ :: _) as ver => Some (Ok ver, hist)
              | [] =>
                  if kubeReleaseLabelRegex versionLabel then
                    let url := bucketURL ++ "/"%char :: versionLabel ++ lit ".txt" in
                    let hist' := hist ++ [url] in
                    match fetchFromURL hist url with
                    | Ok body => KubernetesReleaseVersion fuel' hist' body
                    | Err err =>
                        if negb (isStatus404Error err) then Some (Err err, hist')
                        else
                          match kubeadmVersion client_version with
                          | Err err => Some (Err err, hist')
                          | Ok body => KubernetesReleaseVersion fuel' hist' body
                          end
                    end
                  else Some (Err (ErrNoPattern version), hist)
              end
          end
      end
  end.

End Resolve.

(** ** Declarative readings of the regular expressions *)

(** A declarative reading of [kubeReleaseRegex]: an optional [v], three
    dot-separated numbers without leading zeros, and a suffix over
    [[-0-9a-zA-Z_.+]]. *)
Definition literal_form (s : gostring) : Prop :=
  exists pv a b c suf,
    (pv = [] \/ pv = ["v"%char]) /\
    s = pv ++ a ++ "."%char :: b ++ "."%char :: c ++ suf /\
    is_dec_number a = true /\ is_dec_number b = true /\ is_dec_number c = true /\
    forallb release_suffix_class suf = true.

(** A declarative reading of [kubeBucketPrefixes]: group 3 is a non-empty
    word over [[-\w_.+]]; group 2 is empty, or one of the three bucket names
    followed by [/]. *)
Definition bucket_rule (s g2 g3 : gostring) : Prop :=
  g3 <> [] /\ forallb bucket_class g3 = true /\
  ((g2 = [] /\ s = g3) \/
   ((g2 = lit "release" \/ g2 = lit "ci" \/ g2 = lit "ci-cross") /\
    s = g2 ++ "/"%char :: g3)).

(** The URLs [KubernetesReleaseVersion] may fetch: a label file under one of
    the release buckets of [kubeReleaseBucketURL]. *)
Definition release_label_url (u : gostring) : Prop :=
  exists seg label,
    (seg = lit "release" \/ seg = lit "ci" \/ seg = lit "ci-cross") /\
    kubeReleaseLabelRegex label = true /\
    u = kubeReleaseBucketURL ++ "/"%char :: seg ++ "/"%char :: label ++ lit ".txt".


(** A declarative reading of [kubeReleaseLabelRegex]
    ([^[[:lower:]]+(-[-\w_\.]+)?$]). *)
Definition label_form (s : gostring) : Prop :=
  exists a t, s = a ++ t /\ a <> [] /\ forallb is_lower a = true /\
    (t = [] \/ exists u, t = "-"%char :: u /\ u <> [] /\ forallb label_class u = true).


(** The pre-release part [kubeadmVersion] prints: nothing, or [-] and two
    dot-separated identifiers. *)
Definition two_idents (q : gostring) : Prop :=
  exists x y, q = x ++ "."%char :: y /\
    nonempty x && forallb ident_class x = true /\
    nonempty y && forallb ident_class y = true.


(** [x] is the request [s] itself or the part of [s] after its bucket
    prefix (group 3 of [kubeBucketPrefixes]). *)
Definition version_part (s x : gostring) : Prop :=
  x = s \/ exists g2, kubeBucketPrefixes s = Some (g2, x).

(** * Properties *)

(** ** Character facts *)

Ltac split_andb :=
  repeat match goal with
         | H : _ && _ = true |- _ => apply andb_true_iff in H as [? ?]
         end.

Lemma eqb_ascii_neq (c d : ascii) :
  nat_of_ascii c <> nat_of_ascii d -> Ascii.eqb c d = false.
Proof.
  intros H. destruct (Ascii.eqb c d) eqn:E; [|reflexivity].
  apply Ascii.eqb_eq in E. subst. contradiction.
Qed.

Lemma is_digit_range (c : ascii) :
  is_digit c = true -> 48 <= nat_of_ascii c <= 57.
Proof.
  unfold is_digit, in_range. intros H.
  apply andb_true_iff in H as [H1 H2].
  apply Nat.leb_le in H1. apply Nat.leb_le in H2. lia.
Qed.

Lemma is_digit_not_v (c : ascii) : is_digit c = true -> Ascii.eqb c "v" = false.
Proof.
  intros H. apply is_digit_range in H. apply eqb_ascii_neq.
  change (nat_of_ascii "v") with 118. lia.
Qed.

Lemma is_digit_not_dot (c : ascii) : is_digit c = true -> Ascii.eqb c "." = false.
Proof.
  intros H. apply is_digit_range in H. apply eqb_ascii_neq.
  change (nat_of_ascii ".") with 46. lia.
Qed.

Lemma dot_not_digit : is_digit "." = false.
Proof. reflexivity. Qed.

Lemma is_digit_suffix (c : ascii) : is_digit c = true -> release_suffix_class c = true.
Proof. unfold release_suffix_class, is_alnum. intros ->. simpl. now rewrite orb_true_r. Qed.

Lemma is_dec_number_digits (a : gostring) :
  is_dec_number a = true -> forallb is_digit a = true.
Proof.
  destruct a as [|d t]; simpl; [discriminate|].
  destruct (Ascii.eqb d "0") eqn:E.
  - apply Ascii.eqb_eq in E. subst. destruct t; [reflexivity|discriminate].
  - intros H. apply andb_true_iff in H as [H1 H2]. rewrite H2, andb_true_r.
    unfold is_nonzero_digit, in_range in H1. unfold is_digit, in_range.
    apply andb_true_iff in H1 as [H3 H4].
    apply Nat.leb_le in H3. apply Nat.leb_le in H4.
    apply andb_true_iff; split; apply Nat.leb_le; lia.
Qed.

Lemma is_dec_number_digit (d : ascii) : is_digit d = true -> is_dec_number [d] = true.
Proof.
  intros H. simpl. destruct (Ascii.eqb d "0") eqn:E; [reflexivity|].
  rewrite andb_true_r. apply is_digit_range in H.
  assert (nat_of_ascii d <> 48).
  { intros Hd. rewrite <- (ascii_nat_embedding d), Hd in E. discriminate. }
  unfold is_nonzero_digit, in_range.
  apply andb_true_iff; split; apply Nat.leb_le; lia.
Qed.

(** ** span_digits *)

Lemma span_digits_spec (s a r : gostring) :
  span_digits s = (a, r) ->
  s = a ++ r /\ forallb is_digit a = true /\
  match r with [] => True | x :: _ => is_digit x = false end.
Proof.
  revert a r. induction s as [|c t IH]; intros a r H; simpl in H.
  - inversion H. subst. simpl. auto.
  - destruct (is_digit c) eqn:Ec.
    + destruct (span_digits t) as [a' r'] eqn:Et. injection H as <- <-.
      destruct (IH a' r' eq_refl) as (-> & Ha & Hr).
      simpl. rewrite Ec. auto.
    + inversion H. subst. simpl. auto.
Qed.

Lemma span_digits_app (a : gostring) (x : ascii) (r : gostring) :
  forallb is_digit a = true -> is_digit x = false ->
  span_digits (a ++ x :: r) = (a, x :: r).
Proof.
  intros Ha Hx. induction a as [|c a IH]; simpl.
  - now rewrite Hx.
  - simpl in Ha. apply andb_true_iff in Ha as [Hc Ha]. rewrite Hc, (IH Ha).
    reflexivity.
Qed.

(** ** The literal-version rule *)

Lemma kubeReleaseRegex_sound (s : gostring) :
  kubeReleaseRegex s = true ->
  exists a b d t,
    strip_v s = a ++ "."%char :: b ++ "."%char :: d :: t /\
    is_dec_number a = true /\ is_dec_number b = true /\ is_digit d = true /\
    forallb release_suffix_class t = true.
Proof.
  unfold kubeReleaseRegex.
  destruct (span_digits (strip_v s)) as [a r1] eqn:E1.
  apply span_digits_spec in E1 as (Hs & _ & _).
  destruct r1 as [|c1 r1]; [discriminate|].
  destruct (span_digits r1) as [b r2] eqn:E2.
  apply span_digits_spec in E2 as (Hr1 & _ & _).
  destruct r2 as [|c2 [|d t]]; rewrite ?andb_false_r; try discriminate.
  intros H. split_andb.
  repeat match goal with H : Ascii.eqb _ _ = true |- _ => apply Ascii.eqb_eq in H end.
  subst. exists a, b, d, t. rewrite Hs. repeat split; assumption.
Qed.

Lemma strip_v_digit (d : ascii) (t : gostring) :
  is_digit d = true -> strip_v (d :: t) = d :: t.
Proof. intros H. simpl. now rewrite is_digit_not_v. Qed.

Lemma kubeReleaseRegex_complete (s a b d t : gostring) (x : ascii) :
  strip_v s = a ++ "."%char :: b ++ "."%char :: x :: t ->
  is_dec_number a = true -> is_dec_number b = true -> is_digit x = true ->
  forallb release_suffix_class t = true ->
  kubeReleaseRegex s = true.
Proof.
  intros Hs Ha Hb Hx Ht. unfold kubeReleaseRegex. rewrite Hs.
  rewrite span_digits_app by (apply is_dec_number_digits in Ha; auto).
  simpl. rewrite span_digits_app by (apply is_dec_number_digits in Hb; auto).
  simpl. rewrite Ha, Hb, Hx, Ht. reflexivity.
Qed.

Lemma strip_v_cases (s : gostring) :
  s = "v"%char :: strip_v s \/ strip_v s = s.
Proof.
  destruct s as [|c t]; [now right|]. simpl.
  destruct (Ascii.eqb c "v") eqn:E; [left|now right].
  apply Ascii.eqb_eq in E. now subst.
Qed.

Lemma is_dec_number_head (a : gostring) :
  is_dec_number a = true -> exists x a', a = x :: a' /\ is_digit x = true.
Proof.
  intros H. pose proof (is_dec_number_digits a H) as Hd.
  destruct a as [|x a']; [discriminate|]. exists x, a'. simpl in Hd.
  apply andb_true_iff in Hd as [Hx _]. auto.
Qed.

Lemma forallb_digits_suffix (t : gostring) :
  forallb is_digit t = true -> forallb release_suffix_class t = true.
Proof.
  induction t as [|c t IH]; simpl; [reflexivity|].
  intros H. apply andb_true_iff in H as [Hc Ht].
  now rewrite is_digit_suffix, IH.
Qed.

Lemma kubeReleaseRegex_literal_form (s : gostring) :
  kubeReleaseRegex s = true <-> literal_form s.
Proof.
  split.
  - intros H. apply kubeReleaseRegex_sound in H as (a & b & d & t & Hs & Ha & Hb & Hd & Ht).
    destruct (strip_v_cases s) as [E|E].
    + exists ["v"%char], a, b, [d], t. rewrite E, Hs.
      repeat split; auto using is_dec_number_digit.
    + exists [], a, b, [d], t. rewrite <- E, Hs.
      repeat split; auto using is_dec_number_digit.
  - intros (pv & a & b & c & suf & Hpv & Hs & Ha & Hb & Hc & Hsuf).
    destruct (is_dec_number_head c Hc) as (x & c' & -> & Hx).
    apply (kubeReleaseRegex_complete s a b [] (c' ++ suf) x); auto.
    + destruct (is_dec_number_head a Ha) as (y & a' & -> & Hy).
      destruct Hpv as [-> | ->]; rewrite Hs; simpl.
      * now rewrite is_digit_not_v.
      * reflexivity.
    + rewrite forallb_app, Hsuf, andb_true_r.
      apply forallb_digits_suffix.
      apply is_dec_number_digits in Hc. simpl in Hc.
      now apply andb_true_iff in Hc as [_ ?].
Qed.

(** ** normalizedBuildVersion *)

Lemma HasPrefix_nil (s : gostring) : HasPrefix s [] = true.
Proof. destruct s; reflexivity. Qed.

Lemma normalizedBuildVersion_ok (s r : gostring) :
  normalizedBuildVersion s = r -> r <> [] ->
  (exists rest, r = "v"%char :: rest) /\ kubeReleaseRegex r = true.
Proof.
  unfold normalizedBuildVersion. intros Hr Hne.
  destruct (kubeReleaseRegex s) eqn:Hm; [|subst; contradiction].
  destruct (HasPrefix s (lit "v")) eqn:Hp; subst r.
  - split; [|assumption].
    destruct s as [|c t]; [discriminate|]. simpl in Hp.
    rewrite HasPrefix_nil, andb_true_r in Hp. apply Ascii.eqb_eq in Hp. subst. eauto.
  - split; [eauto|].
    assert (E : strip_v s = s).
    { destruct s as [|c t]; [reflexivity|]. simpl in Hp |- *.
      rewrite HasPrefix_nil, andb_true_r in Hp. now rewrite Hp. }
    unfold kubeReleaseRegex in *. rewrite E in Hm. exact Hm.
Qed.

Lemma normalizedBuildVersion_nonempty (s : gostring) :
  kubeReleaseRegex s = true -> normalizedBuildVersion s <> [].
Proof.
  unfold normalizedBuildVersion. intros H. rewrite H.
  destruct (HasPrefix s (lit "v")); [|discriminate].
  destruct s; [discriminate H|discriminate].
Qed.

(** ** KubernetesReleaseVersion *)

Lemma KubernetesReleaseVersion_ok http client fuel :
  forall hist version r hist',
    KubernetesReleaseVersion http client fuel hist version = Some (Ok r, hist') ->
    (exists rest, r = "v"%char :: rest) /\ kubeReleaseRegex r = true.
Proof.
  induction fuel as [|fuel IH]; intros hist version r hist' H; [discriminate|].
  cbn [KubernetesReleaseVersion] in H.
  destruct (normalizedBuildVersion version) as [|c0 v0] eqn:E0.
  2:{ injection H as <- _. apply (normalizedBuildVersion_ok version); [exact E0|discriminate]. }
  destruct (splitVersion version) as [[bucketURL versionLabel]|err]; [|discriminate].
  destruct (normalizedBuildVersion versionLabel) as [|c1 v1] eqn:E1.
  2:{ injection H as <- _.
      apply (normalizedBuildVersion_ok versionLabel); [exact E1|discriminate]. }
  destruct (kubeReleaseLabelRegex versionLabel); [|discriminate].
  destruct (fetchFromURL _ _ _) as [body|err].
  - eapply IH. exact H.
  - destruct (negb (isStatus404Error err)); [discriminate|].
    destruct (kubeadmVersion client) as [body|err']; [|discriminate].
    eapply IH. exact H.
Qed.

(** C1. Every string that [KubernetesReleaseVersion] returns successfully,
    directly, after a label fetch or after the 404 fallback, starts with [v]
    and matches [kubeReleaseRegex]. *)
Theorem KubernetesReleaseVersion_returns_v_literal :
  forall http client fuel hist version r hist',
    KubernetesReleaseVersion http client fuel hist version = Some (Ok r, hist') ->
    (exists rest, r = "v"%char :: rest) /\ kubeReleaseRegex r = true.
Proof.
  intros http client fuel hist version r hist' H.
  exact (KubernetesReleaseVersion_ok http client fuel hist version r hist' H).
Qed.

Lemma KubernetesReleaseVersion_returns_v_literal_witness :
  KubernetesReleaseVersion (fun _ _ => Response 404%Z (lit "404 Not Found") (BodyOk []))
    (lit "v1.11.0-beta.0.55+abc") 5 [] (lit "stable-1") =
    Some (Ok (lit "v1.11.0-beta.0"), [lit "https://dl.k8s.io/release/stable-1.txt"]) /\
  (exists rest, lit "v1.11.0-beta.0" = "v"%char :: rest) /\
  kubeReleaseRegex (lit "v1.11.0-beta.0") = true.
Proof.
  split; [reflexivity|].
  apply (KubernetesReleaseVersion_returns_v_literal
           (fun _ _ => Response 404%Z (lit "404 Not Found") (BodyOk []))
           (lit "v1.11.0-beta.0.55+abc") 5 [] (lit "stable-1") _
           [lit "https://dl.k8s.io/release/stable-1.txt"]).
  reflexivity.
Defined.

(** C3 (counterexample). A literal request with build metadata, or with a
    pre-release of three components, is returned as it is. *)
Lemma KubernetesReleaseVersion_keeps_build_metadata :
  KubernetesReleaseVersion (fun _ _ => ConnError []) (lit "v1.0.0") 1 []
    (lit "v1.2.3+abc") = Some (Ok (lit "v1.2.3+abc"), []) /\
  In "+"%char (lit "v1.2.3+abc") /\
  KubernetesReleaseVersion (fun _ _ => ConnError []) (lit "v1.0.0") 1 []
    (lit "v1.2.3-alpha.0.1234") = Some (Ok (lit "v1.2.3-alpha.0.1234"), []) /\
  Split (lit "alpha.0.1234") "." = [lit "alpha"; lit "0"; lit "1234"].
Proof. repeat split; simpl; auto 20. Qed.

(** C4. A string matching [kubeReleaseRegex] is returned at once, with no
    URL fetched: unchanged when it starts with [v], with [v] prepended
    otherwise; so "1.2.3" resolves to "v1.2.3". *)
Theorem KubernetesReleaseVersion_literal_shortcut :
  forall http client n hist s,
    kubeReleaseRegex s = true ->
    (HasPrefix s (lit "v") = true ->
     KubernetesReleaseVersion http client (S n) hist s = Some (Ok s, hist)) /\
    (HasPrefix s (lit "v") = false ->
     KubernetesReleaseVersion http client (S n) hist s = Some (Ok ("v"%char :: s), hist)) /\
    KubernetesReleaseVersion http client (S n) hist (lit "1.2.3") =
      Some (Ok (lit "v1.2.3"), hist).
Proof.
  intros http client n hist s H.
  assert (E : normalizedBuildVersion s =
              if HasPrefix s (lit "v") then s else "v"%char :: s).
  { unfold normalizedBuildVersion. now rewrite H. }
  destruct s as [|c t]; [discriminate H|].
  split; [|split]; [intros Hp; rewrite Hp in E; cbn [KubernetesReleaseVersion];
                    now rewrite E ..|reflexivity].
Qed.

Lemma KubernetesReleaseVersion_literal_shortcut_witness :
  KubernetesReleaseVersion (fun _ _ => ConnError []) (lit "v1.0.0") 1 []
    (lit "v1.8.0-alpha.1") = Some (Ok (lit "v1.8.0-alpha.1"), []).
Proof.
  apply (KubernetesReleaseVersion_literal_shortcut (fun _ _ => ConnError [])
           (lit "v1.0.0") 0 [] (lit "v1.8.0-alpha.1")); reflexivity.
Defined.

(** C9 (counterexample). "1.2.3-a b" is three numbers followed by a suffix
    that begins with [-], but [kubeReleaseRegex] rejects it: the whole suffix
    must be over [[-0-9a-zA-Z_.+]]. *)
Lemma kubeReleaseRegex_rejects_spaced_suffix :
  (exists pv a b c suf,
      (pv = [] \/ pv = ["v"%char]) /\
      lit "1.2.3-a b" = pv ++ a ++ "."%char :: b ++ "."%char :: c ++ suf /\
      is_dec_number a = true /\ is_dec_number b = true /\ is_dec_number c = true /\
      (suf = [] \/
       exists ch rest, suf = ch :: rest /\
         (Ascii.eqb ch "-" || Ascii.eqb ch "." || Ascii.eqb ch "+" || is_alnum ch) = true)) /\
  kubeReleaseRegex (lit "1.2.3-a b") = false.
Proof.
  split; [|reflexivity].
  exists [], (lit "1"), (lit "2"), (lit "3"), (lit "-a b").
  repeat split; auto.
  right. exists "-"%char, (lit "a b"). split; reflexivity.
Qed.

(** C9 (amended). [kubeReleaseRegex] accepts a string exactly when it is an
    optional [v], three dot-separated numbers without leading zeros, and a
    possibly empty suffix made only of characters of [[-0-9a-zA-Z_.+]] (so
    the suffix may also start with [_]). *)
Theorem kubeReleaseRegex_iff_literal_form :
  forall s, kubeReleaseRegex s = true <-> literal_form s.
Proof. exact kubeReleaseRegex_literal_form. Qed.

Lemma kubeReleaseRegex_iff_literal_form_witness :
  literal_form (lit "1.2.3_") /\ kubeReleaseRegex (lit "1.2.3_") = true.
Proof.
  split; [|reflexivity].
  apply (kubeReleaseRegex_iff_literal_form (lit "1.2.3_")). reflexivity.
Defined.

(** ** kubeBucketPrefixes *)

Lemma break_at_spec (sep : ascii) (s p : gostring) (o : option gostring) :
  break_at sep s = (p, o) ->
  forallb (fun c => negb (Ascii.eqb c sep)) p = true /\
  s = p ++ match o with None => [] | Some r => sep :: r end.
Proof.
  revert p o. induction s as [|c t IH]; intros p o H; simpl in H.
  - injection H as <- <-. auto.
  - destruct (Ascii.eqb c sep) eqn:E.
    + injection H as <- <-. apply Ascii.eqb_eq in E. subst. auto.
    + destruct (break_at sep t) as [p' o'] eqn:Et. injection H as <- <-.
      destruct (IH p' o' eq_refl) as [Hp ->]. simpl. now rewrite E, Hp.
Qed.

Lemma break_at_none (sep : ascii) (s : gostring) :
  forallb (fun c => negb (Ascii.eqb c sep)) s = true -> break_at sep s = (s, None).
Proof.
  induction s as [|c t IH]; simpl; [reflexivity|].
  intros H. apply andb_true_iff in H as [Hc Ht].
  apply negb_true_iff in Hc. now rewrite Hc, IH.
Qed.

Lemma bucket_class_no_slash (s : gostring) :
  forallb bucket_class s = true -> forallb (fun c => negb (Ascii.eqb c "/")) s = true.
Proof.
  induction s as [|c t IH]; simpl; [reflexivity|].
  intros H. apply andb_true_iff in H as [Hc Ht]. rewrite IH by exact Ht.
  destruct (Ascii.eqb c "/") eqn:E; [|reflexivity].
  apply Ascii.eqb_eq in E. subst. discriminate.
Qed.

Lemma is_bucket_name_true (p : gostring) :
  is_bucket_name p = true -> p = lit "release" \/ p = lit "ci" \/ p = lit "ci-cross".
Proof.
  unfold is_bucket_name.
  destruct (list_eq_dec ascii_dec p (lit "release")); [auto|].
  destruct (list_eq_dec ascii_dec p (lit "ci")); [auto|].
  destruct (list_eq_dec ascii_dec p (lit "ci-cross")); [auto|].
  discriminate.
Qed.

Lemma kubeBucketPrefixes_spec (s g2 g3 : gostring) :
  kubeBucketPrefixes s = Some (g2, g3) <-> bucket_rule s g2 g3.
Proof.
  unfold kubeBucketPrefixes, break_slash, bucket_rule. split.
  - destruct (break_at "/" s) as [p o] eqn:E.
    apply break_at_spec in E as [_ Hs]. destruct o as [r|].
    + destruct (is_bucket_name p && nonempty r && forallb bucket_class r) eqn:B;
        [|discriminate].
      intros H. injection H as -> ->. split_andb.
      repeat split; [intros E; subst; simpl in *; congruence|assumption|].
      right. split; [apply is_bucket_name_true; assumption|exact Hs].
    + destruct (nonempty p && forallb bucket_class p) eqn:B; [|discriminate].
      intros H. injection H as <- ->. split_andb.
      repeat split; [intros E; subst; simpl in *; congruence|assumption|].
      left. rewrite app_nil_r in Hs. auto.
  - intros (Hne & Hcl & [[-> ->] | [Hn ->]]).
    + rewrite (break_at_none _ _ (bucket_class_no_slash _ Hcl)), Hcl.
      destruct g3; [contradiction|reflexivity].
    + destruct g3 as [|x g3]; [contradiction|].
      destruct Hn as [-> | [-> | ->]]; simpl in Hcl |- *; now rewrite Hcl.
Qed.

(** C5. On a string matching [kubeBucketPrefixes], [splitVersion] returns
    the bucket root joined with the captured prefix when that prefix starts
    with "ci" (so "ci" and "ci-cross" are kept apart) and with "release"
    otherwise, no prefix included, together with the remainder unchanged; on
    any other string it fails with the invalid-version error. *)
Theorem splitVersion_bucket_url :
  (forall s g2 g3,
      bucket_rule s g2 g3 ->
      splitVersion s =
        Ok (kubeReleaseBucketURL ++ "/"%char ::
              (if HasPrefix g2 (lit "ci") then g2 else lit "release"), g3)) /\
  (forall s, (forall g2 g3, ~ bucket_rule s g2 g3) ->
      splitVersion s = Err (ErrInvalidVersion s)).
Proof.
  split.
  - intros s g2 g3 H. apply kubeBucketPrefixes_spec in H.
    unfold splitVersion. now rewrite H.
  - intros s H. unfold splitVersion.
    destruct (kubeBucketPrefixes s) as [[g2 g3]|] eqn:E; [|reflexivity].
    apply kubeBucketPrefixes_spec in E. exfalso. exact (H g2 g3 E).
Qed.

Lemma splitVersion_bucket_url_witness :
  splitVersion (lit "ci-cross/latest") =
    Ok (lit "https://dl.k8s.io/ci-cross", lit "latest") /\
  splitVersion (lit "a/b") = Err (ErrInvalidVersion (lit "a/b")).
Proof.
  split.
  - apply (proj1 splitVersion_bucket_url (lit "ci-cross/latest") (lit "ci-cross")
             (lit "latest")).
    split; [discriminate|split; [reflexivity|]].
    right. split; [auto|reflexivity].
  - apply (proj2 splitVersion_bucket_url).
    intros g2 g3 H. apply kubeBucketPrefixes_spec in H. discriminate H.
Defined.

(** C6. [KubernetesIsCIVersion] holds exactly when the string matches
    [kubeBucketPrefixes] with a captured prefix starting with "ci"; it is a
    function of the string alone (no network). *)
Theorem KubernetesIsCIVersion_spec :
  (forall s, KubernetesIsCIVersion s = true <->
             exists g2 g3, bucket_rule s g2 g3 /\ HasPrefix g2 (lit "ci") = true) /\
  KubernetesIsCIVersion (lit "ci/latest-1.8") = true /\
  KubernetesIsCIVersion (lit "stable-1.7") = false /\
  KubernetesIsCIVersion (lit "release/v1.7.1") = false.
Proof.
  split; [|repeat split].
  intros s. unfold KubernetesIsCIVersion. split.
  - destruct (kubeBucketPrefixes s) as [[g2 g3]|] eqn:E; [|discriminate].
    intros H. exists g2, g3. split; [apply kubeBucketPrefixes_spec; exact E|exact H].
  - intros (g2 & g3 & H & Hp). apply kubeBucketPrefixes_spec in H. now rewrite H.
Qed.

Lemma KubernetesIsCIVersion_spec_witness :
  KubernetesIsCIVersion (lit "ci-cross/v1.8.0") = true.
Proof.
  apply (proj2 (proj1 KubernetesIsCIVersion_spec (lit "ci-cross/v1.8.0"))).
  exists (lit "ci-cross"), (lit "v1.8.0"). split; [|reflexivity].
  split; [discriminate|split; [reflexivity|]].
  right. split; [auto|reflexivity].
Defined.

(** ** The label fetch and its fallback *)

Lemma KubernetesReleaseVersion_fetch_step http client n hist version bucketURL versionLabel :
  normalizedBuildVersion version = [] ->
  splitVersion version = Ok (bucketURL, versionLabel) ->
  normalizedBuildVersion versionLabel = [] ->
  kubeReleaseLabelRegex versionLabel = true ->
  let url := bucketURL ++ "/"%char :: versionLabel ++ lit ".txt" in
  KubernetesReleaseVersion http client (S n) hist version =
    match fetchFromURL http hist url with
    | Ok body => KubernetesReleaseVersion http client n (hist ++ [url]) body
    | Err err =>
        if negb (isStatus404Error err) then Some (Err err, hist ++ [url])
        else match kubeadmVersion client with
             | Err err => Some (Err err, hist ++ [url])
             | Ok body => KubernetesReleaseVersion http client n (hist ++ [url]) body
             end
    end.
Proof.
  intros H0 H1 H2 H3 url. cbn [KubernetesReleaseVersion].
  now rewrite H0, H1, H2, H3.
Qed.

(** C2. Once the request reaches the label fetch: a successful fetch
    resolves the trimmed body; a 404 falls back to the client version
    ([kubeadmVersion]) and resolves that; a connection error, another
    non-200 status or a body-read error is returned as it is, with no
    version and no fallback. *)
Theorem KubernetesReleaseVersion_label_fetch :
  forall http client n hist version bucketURL versionLabel,
    normalizedBuildVersion version = [] ->
    splitVersion version = Ok (bucketURL, versionLabel) ->
    normalizedBuildVersion versionLabel = [] ->
    kubeReleaseLabelRegex versionLabel = true ->
    let url := bucketURL ++ "/"%char :: versionLabel ++ lit ".txt" in
    let hist' := hist ++ [url] in
    (forall status body,
        http hist url = Response 200%Z status (BodyOk body) ->
        KubernetesReleaseVersion http client (S n) hist version =
          KubernetesReleaseVersion http client n hist' (TrimSpace body)) /\
    (forall status body,
        http hist url = Response 404%Z status body ->
        KubernetesReleaseVersion http client (S n) hist version =
          match kubeadmVersion client with
          | Ok fallback => KubernetesReleaseVersion http client n hist' fallback
          | Err err => Some (Err err, hist')
          end) /\
    (forall msg,
        http hist url = ConnError msg ->
        KubernetesReleaseVersion http client (S n) hist version =
          Some (Err (ErrGetURL url msg), hist')) /\
    (forall code status body,
        code <> 200%Z -> code <> 404%Z ->
        http hist url = Response code status body ->
        KubernetesReleaseVersion http client (S n) hist version =
          Some (Err (ErrStatus url status), hist')) /\
    (forall status msg,
        http hist url = Response 200%Z status (BodyReadErr msg) ->
        KubernetesReleaseVersion http client (S n) hist version =
          Some (Err (ErrReadURL url msg), hist')).
Proof.
  intros http client n hist version bucketURL versionLabel H0 H1 H2 H3 url hist'.
  pose proof (KubernetesReleaseVersion_fetch_step http client n hist version
                bucketURL versionLabel H0 H1 H2 H3) as E.
  cbv zeta in E. subst url hist'. rewrite E. unfold fetchFromURL.
  repeat split.
  - intros status body ->. reflexivity.
  - intros status body ->. reflexivity.
  - intros msg ->. reflexivity.
  - intros code status body Hc Hn ->.
    apply Z.eqb_neq in Hc, Hn. now rewrite Hc, Hn.
  - intros status msg ->. reflexivity.
Qed.

Lemma KubernetesReleaseVersion_label_fetch_witness :
  KubernetesReleaseVersion
    (fun _ _ => Response 200%Z (lit "200 OK") (BodyOk (lit " v1.10.3
"))) (lit "v1.0.0") 5 [] (lit "stable-1") =
  KubernetesReleaseVersion
    (fun _ _ => Response 200%Z (lit "200 OK") (BodyOk (lit " v1.10.3
"))) (lit "v1.0.0") 4 [lit "https://dl.k8s.io/release/stable-1.txt"] (lit "v1.10.3").
Proof.
  apply (proj1 (KubernetesReleaseVersion_label_fetch
                  (fun _ _ => Response 200%Z (lit "200 OK") (BodyOk (lit " v1.10.3
"))) (lit "v1.0.0") 4 [] (lit "stable-1") (lit "https://dl.k8s.io/release")
                  (lit "stable-1") eq_refl eq_refl eq_refl eq_refl)
           (lit "200 OK") (lit " v1.10.3
")).
  reflexivity.
Defined.

(** ** strings.Split *)

Definition no_sep (sep : ascii) (x : gostring) : bool :=
  forallb (fun c => negb (Ascii.eqb c sep)) x.

Lemma Split_nonempty (s : gostring) (sep : ascii) : Split s sep <> [].
Proof.
  destruct s as [|c t]; simpl; [discriminate|].
  destruct (Ascii.eqb c sep); [discriminate|].
  destruct (Split t sep); discriminate.
Qed.

Lemma Split_no_sep (s : gostring) (sep : ascii) (x : gostring) :
  In x (Split s sep) -> no_sep sep x = true.
Proof.
  revert x. induction s as [|c t IH]; intros x Hx; simpl in Hx.
  - destruct Hx as [<-|[]]. reflexivity.
  - destruct (Ascii.eqb c sep) eqn:E.
    + destruct Hx as [<-|Hx]; [reflexivity|auto].
    + destruct (Split t sep) as [|y ys] eqn:Et.
      * destruct Hx as [<-|[]]. simpl. now rewrite E.
      * destruct Hx as [<-|Hx].
        -- simpl. rewrite E. apply IH. now left.
        -- apply IH. now right.
Qed.

Lemma Split_app_sep (a r : gostring) (sep : ascii) :
  no_sep sep a = true -> Split (a ++ sep :: r) sep = a :: Split r sep.
Proof.
  induction a as [|c a IH]; intros H; simpl.
  - now rewrite Ascii.eqb_refl.
  - unfold no_sep in H. simpl in H. apply andb_true_iff in H as [Hc Ha].
    apply negb_true_iff in Hc. rewrite Hc, IH by exact Ha. reflexivity.
Qed.

Lemma Split_single (b : gostring) (sep : ascii) :
  no_sep sep b = true -> Split b sep = [b].
Proof.
  induction b as [|c b IH]; intros H; simpl; [reflexivity|].
  unfold no_sep in H. simpl in H. apply andb_true_iff in H as [Hc Hb].
  apply negb_true_iff in Hc. rewrite Hc, IH by exact Hb. reflexivity.
Qed.

Lemma Split_one (s b : gostring) (sep : ascii) : Split s sep = [b] -> s = b.
Proof.
  revert b. induction s as [|c t IH]; intros b H; simpl in H.
  - now injection H as <-.
  - destruct (Ascii.eqb c sep).
    + injection H as _ H. exfalso. exact (Split_nonempty t sep H).
    + destruct (Split t sep) as [|x xs] eqn:Et.
      * exfalso. exact (Split_nonempty t sep Et).
      * injection H as <- ->. now rewrite (IH x eq_refl).
Qed.

Lemma Split_two (s a b : gostring) (sep : ascii) :
  Split s sep = [a; b] -> s = a ++ sep :: b.
Proof.
  revert a b. induction s as [|c t IH]; intros a b H; simpl in H.
  - discriminate.
  - destruct (Ascii.eqb c sep) eqn:E.
    + injection H as <- H. apply Ascii.eqb_eq in E. subst.
      now rewrite (Split_one t b sep H).
    + destruct (Split t sep) as [|x xs] eqn:Et.
      * exfalso. exact (Split_nonempty t sep Et).
      * injection H as <- ->. now rewrite (IH x b eq_refl).
Qed.

(** C7. [kubeadmVersion] prints [v] and the three numbers of a parsed
    version, drops the build metadata, and writes a pre-release, when there
    is one, with exactly two dot-separated segments: the first two segments
    of the parsed one, or its single segment and "0".  An unparsable version
    is an error.  (The parser is modelled from the spec.) *)
Theorem kubeadmVersion_format :
  (forall info v,
      ParseSemantic info = Some v ->
      exists pre,
        kubeadmVersion info =
          Ok ("v"%char :: fmt_d (Major v) ++ "."%char :: fmt_d (Minor v) ++
              "."%char :: fmt_d (Patch v) ++ pre) /\
        (PreRelease v = [] -> pre = []) /\
        (PreRelease v <> [] ->
         exists a b,
           pre = "-"%char :: a ++ "."%char :: b /\
           Split (a ++ "."%char :: b) "." = [a; b] /\
           ((Split (PreRelease v) "." = [a] /\ b = lit "0") \/
            (exists rest, Split (PreRelease v) "." = a :: b :: rest)))) /\
  (forall info, ParseSemantic info = None ->
      kubeadmVersion info = Err (ErrKubeadmVersion info)) /\
  kubeadmVersion (lit "v1.9.0-alpha.0.1234+sha.abc") = Ok (lit "v1.9.0-alpha.0") /\
  kubeadmVersion (lit "v1.9.0-beta+meta") = Ok (lit "v1.9.0-beta.0").
Proof.
  split; [|split; [|split; reflexivity]].
  - intros info v H. unfold kubeadmVersion. rewrite H.
    destruct (PreRelease v) as [|p0 pr] eqn:Ep.
    + exists []. split; [reflexivity|split; [reflexivity|congruence]].
    + assert (Hin : forall x, In x (Split (p0 :: pr) ".") -> no_sep "." x = true)
        by (intros x; apply Split_no_sep).
      destruct (Split (p0 :: pr) ".") as [|a [|b [|c rest]]] eqn:Es.
      * exfalso. exact (Split_nonempty _ _ Es).
      * eexists. split; [reflexivity|split; [discriminate|intros _]].
        exists a, (lit "0"). split; [reflexivity|split].
        -- rewrite Split_app_sep by (apply Hin; now left). reflexivity.
        -- now left.
      * eexists. split; [reflexivity|split; [discriminate|intros _]].
        exists a, b. split.
        -- pose proof (Split_two _ _ _ _ Es) as E2. simpl. now rewrite E2.
        -- split; [|right; exists []; reflexivity].
           rewrite Split_app_sep by (apply Hin; now left).
           rewrite Split_single by (apply Hin; right; now left). reflexivity.
      * eexists. split; [reflexivity|split; [discriminate|intros _]].
        exists a, b. split; [reflexivity|split].
        -- rewrite Split_app_sep by (apply Hin; now left).
           rewrite Split_single by (apply Hin; right; now left). reflexivity.
        -- right. now exists (c :: rest).
  - intros info H. unfold kubeadmVersion. now rewrite H.
Qed.

Lemma kubeadmVersion_format_witness :
  ParseSemantic (lit "v1.9.0-beta+meta") =
    Some (mkVersion 1 9 0 (lit "beta") (lit "meta")) /\
  exists pre,
    kubeadmVersion (lit "v1.9.0-beta+meta") =
      Ok ("v"%char :: fmt_d 1 ++ "."%char :: fmt_d 9 ++ "."%char :: fmt_d 0 ++ pre) /\
    (lit "beta" = [] -> pre = []) /\
    (lit "beta" <> [] ->
     exists a b,
       pre = "-"%char :: a ++ "."%char :: b /\
       Split (a ++ "."%char :: b) "." = [a; b] /\
       ((Split (lit "beta") "." = [a] /\ b = lit "0") \/
        (exists rest, Split (lit "beta") "." = a :: b :: rest))).
Proof.
  split; [reflexivity|].
  exact (proj1 kubeadmVersion_format (lit "v1.9.0-beta+meta")
           (mkVersion 1 9 0 (lit "beta") (lit "meta")) eq_refl).
Defined.

(** ** Runes and the image-tag sanitizer *)

Definition is_ascii_byte (c : ascii) : bool := nat_of_ascii c <? 128.

Lemma utf8_2_ascii (c x : ascii) : is_ascii_byte c = true -> utf8_2 c x = false.
Proof.
  unfold is_ascii_byte, utf8_2, byte_in, in_range. intros H.
  apply Nat.ltb_lt in H.
  replace (194 <=? nat_of_ascii c) with false by (symmetry; apply Nat.leb_gt; lia).
  reflexivity.
Qed.

Lemma utf8_3_ascii (c x y : ascii) : is_ascii_byte c = true -> utf8_3 c x y = false.
Proof.
  unfold is_ascii_byte, utf8_3. intros H. apply Nat.ltb_lt in H.
  replace (nat_of_ascii c =? 224) with false by (symmetry; apply Nat.eqb_neq; lia).
  replace (225 <=? nat_of_ascii c) with false by (symmetry; apply Nat.leb_gt; lia).
  replace (238 <=? nat_of_ascii c) with false by (symmetry; apply Nat.leb_gt; lia).
  replace (nat_of_ascii c =? 237) with false by (symmetry; apply Nat.eqb_neq; lia).
  reflexivity.
Qed.

Lemma utf8_4_ascii (c x y z : ascii) : is_ascii_byte c = true -> utf8_4 c x y z = false.
Proof.
  unfold is_ascii_byte, utf8_4. intros H. apply Nat.ltb_lt in H.
  replace (nat_of_ascii c =? 240) with false by (symmetry; apply Nat.eqb_neq; lia).
  replace (241 <=? nat_of_ascii c) with false by (symmetry; apply Nat.leb_gt; lia).
  replace (nat_of_ascii c =? 244) with false by (symmetry; apply Nat.eqb_neq; lia).
  reflexivity.
Qed.

Lemma runes_cons_ascii (c : ascii) (s : gostring) :
  is_ascii_byte c = true -> runes (c :: s) = [c] :: runes s.
Proof.
  intros H.
  destruct s as [|b1 [|b2 [|b3 s4]]]; [reflexivity| | |];
    cbn [runes]; rewrite ?(utf8_2_ascii c _ H), ?(utf8_3_ascii c _ _ H),
    ?(utf8_4_ascii c _ _ _ H); reflexivity.
Qed.

Lemma runes_ascii (s : gostring) :
  forallb is_ascii_byte s = true -> runes s = map (fun c => [c]) s.
Proof.
  induction s as [|c t IH]; intros H; [reflexivity|].
  simpl in H. apply andb_true_iff in H as [Hc Ht].
  rewrite runes_cons_ascii by exact Hc. simpl. now rewrite IH.
Qed.

Lemma image_tag_class_ascii (c : ascii) : image_tag_class c = true -> is_ascii_byte c = true.
Proof.
  unfold image_tag_class, is_alnum, is_digit, is_lower, is_upper, in_range, is_ascii_byte.
  intros H.
  repeat (apply orb_true_iff in H as [H|H]);
    try (apply Ascii.eqb_eq in H; subst; reflexivity);
    apply andb_true_iff in H as [_ H]; apply Nat.leb_le in H;
    apply Nat.ltb_lt; lia.
Qed.

Lemma replace_rune_spec (r : gostring) :
  forallb image_tag_class (replace_rune r) = true /\ List.length (replace_rune r) = 1.
Proof.
  destruct r as [|c [|d t]]; simpl; auto.
  destruct (image_tag_class c) eqn:E; simpl; rewrite ?E; auto.
Qed.

Lemma sanitize_runes (rs : list gostring) :
  forallb image_tag_class (List.concat (map replace_rune rs)) = true /\
  List.length (List.concat (map replace_rune rs)) = List.length rs.
Proof.
  induction rs as [|r rs [IH1 IH2]]; [auto|].
  destruct (replace_rune_spec r) as [H1 H2]. simpl.
  rewrite forallb_app, length_app, H1, IH1, H2, IH2. auto.
Qed.

Lemma KubernetesVersionToImageTag_class (s : gostring) :
  forallb image_tag_class (KubernetesVersionToImageTag s) = true.
Proof. apply sanitize_runes. Qed.

Lemma forallb_image_tag_ascii (s : gostring) :
  forallb image_tag_class s = true -> forallb is_ascii_byte s = true.
Proof.
  induction s as [|c t IH]; simpl; [reflexivity|].
  intros H. apply andb_true_iff in H as [Hc Ht].
  now rewrite image_tag_class_ascii, IH.
Qed.

Lemma sanitize_allowed (s : gostring) :
  forallb image_tag_class s = true -> KubernetesVersionToImageTag s = s.
Proof.
  intros H. unfold KubernetesVersionToImageTag.
  rewrite runes_ascii by (apply forallb_image_tag_ascii; exact H).
  induction s as [|c t IH]; [reflexivity|].
  simpl in H. apply andb_true_iff in H as [Hc Ht].
  simpl. rewrite Hc. simpl. now rewrite IH.
Qed.

(** C8 (counterexample). "é", the two bytes C3 A9, is one rune: it becomes
    a single [_], so the result is shorter than the input. *)
Lemma KubernetesVersionToImageTag_shrinks_multibyte :
  KubernetesVersionToImageTag [ascii_of_nat 195; ascii_of_nat 169] = ["_"%char] /\
  List.length (KubernetesVersionToImageTag [ascii_of_nat 195; ascii_of_nat 169]) <>
  List.length [ascii_of_nat 195; ascii_of_nat 169].
Proof. split; [reflexivity|simpl; discriminate]. Qed.

(** C10. [KubernetesVersionToImageTag] is idempotent. *)
Theorem KubernetesVersionToImageTag_idempotent :
  forall s, KubernetesVersionToImageTag (KubernetesVersionToImageTag s) =
            KubernetesVersionToImageTag s.
Proof.
  intros s. apply sanitize_allowed, KubernetesVersionToImageTag_class.
Qed.

(** * Further properties of version.go *)

(** ** Literal versions and the bucket rule *)

Lemma is_digit_bucket (c : ascii) : is_digit c = true -> bucket_class c = true.
Proof. unfold bucket_class, is_word, is_alnum. intros ->. simpl. now rewrite orb_true_r. Qed.

Lemma suffix_bucket (c : ascii) :
  release_suffix_class c = true -> bucket_class c = true.
Proof.
  unfold release_suffix_class, bucket_class, is_word.
  destruct (c =? "-")%char, (is_alnum c), (c =? "_")%char, (c =? ".")%char,
    (c =? "+")%char; simpl; auto.
Qed.

Lemma forallb_impl {A : Type} (p q : A -> bool) (s : list A) :
  (forall c, p c = true -> q c = true) -> forallb p s = true -> forallb q s = true.
Proof.
  intros Hpq. induction s as [|c t IH]; simpl; [reflexivity|].
  intros H. apply andb_true_iff in H as [Hc Ht]. now rewrite Hpq, IH.
Qed.

(** A string accepted by [kubeReleaseRegex] is a non-empty word over the
    class of [kubeBucketPrefixes] (in particular it has no [/]). *)
Lemma kubeReleaseRegex_bucket_class (s : gostring) :
  kubeReleaseRegex s = true -> s <> [] /\ forallb bucket_class s = true.
Proof.
  intros H. apply kubeReleaseRegex_sound in H as (a & b & d & t & Hs & Ha & Hb & Hd & Ht).
  assert (Hrest : forallb bucket_class (strip_v s) = true).
  { rewrite Hs, forallb_app. simpl. rewrite forallb_app. simpl.
    rewrite (forallb_impl _ _ a is_digit_bucket (is_dec_number_digits a Ha)).
    rewrite (forallb_impl _ _ b is_digit_bucket (is_dec_number_digits b Hb)).
    rewrite (is_digit_bucket d Hd), (forallb_impl _ _ t suffix_bucket Ht).
    reflexivity. }
  destruct (strip_v_cases s) as [E|E].
  - rewrite E. split; [discriminate|]. simpl. exact Hrest.
  - rewrite E in Hrest. split; [|exact Hrest].
    rewrite <- E, Hs. destruct a; discriminate.
Qed.

Lemma normalizedBuildVersion_fixed (r : gostring) :
  (exists rest, r = "v"%char :: rest) -> kubeReleaseRegex r = true ->
  normalizedBuildVersion r = r.
Proof.
  intros [rest ->] H. unfold normalizedBuildVersion. rewrite H. simpl.
  now rewrite HasPrefix_nil.
Qed.

(** X1. [normalizedBuildVersion] returns the empty string exactly on the
    strings [kubeReleaseRegex] rejects, and applying it twice is applying it
    once. *)
Theorem normalizedBuildVersion_empty_iff_and_idempotent :
  forall s,
    (normalizedBuildVersion s = [] <-> kubeReleaseRegex s = false) /\
    normalizedBuildVersion (normalizedBuildVersion s) = normalizedBuildVersion s.
Proof.
  intros s. destruct (kubeReleaseRegex s) eqn:H.
  - pose proof (normalizedBuildVersion_nonempty s H) as Hne.
    split; [split; [contradiction|discriminate]|].
    destruct (normalizedBuildVersion_ok s _ eq_refl Hne) as [Hv Hm].
    now apply normalizedBuildVersion_fixed.
  - assert (E : normalizedBuildVersion s = []) by (unfold normalizedBuildVersion; now rewrite H).
    rewrite E. split; [tauto|reflexivity].
Qed.

(** X2. A version that [KubernetesReleaseVersion] returned resolves to itself
    in a single call, against any server and without fetching a URL. *)
Theorem KubernetesReleaseVersion_result_stable :
  forall http client fuel hist version r hist',
    KubernetesReleaseVersion http client fuel hist version = Some (Ok r, hist') ->
    forall http2 client2 n hist2,
      KubernetesReleaseVersion http2 client2 (S n) hist2 r = Some (Ok r, hist2).
Proof.
  intros http client fuel hist version r hist' H http2 client2 n hist2.
  destruct (KubernetesReleaseVersion_ok http client fuel hist version r hist' H)
    as [[rest Er] Hm].
  pose proof (normalizedBuildVersion_fixed r (ex_intro _ rest Er) Hm) as E.
  cbn [KubernetesReleaseVersion]. rewrite E, Er. reflexivity.
Qed.

Lemma KubernetesReleaseVersion_result_stable_witness :
  KubernetesReleaseVersion (fun _ _ => ConnError []) (lit "v0.0.0") 1 []
    (lit "v1.10.3") = Some (Ok (lit "v1.10.3"), []).
Proof.
  apply (KubernetesReleaseVersion_result_stable
           (fun _ _ => Response 200%Z (lit "200 OK") (BodyOk (lit "v1.10.3")))
           (lit "v0.0.0") 5 [] (lit "stable")
           (lit "v1.10.3") [lit "https://dl.k8s.io/release/stable.txt"]).
  reflexivity.
Defined.

(** X3. A bucket-prefixed exact version ("ci/v1.8.0-alpha.1") is returned
    normalized in a single call, without fetching a URL. *)
Theorem KubernetesReleaseVersion_prefixed_literal :
  forall http client n hist g2 g3,
    (g2 = lit "release" \/ g2 = lit "ci" \/ g2 = lit "ci-cross") ->
    kubeReleaseRegex g3 = true ->
    KubernetesReleaseVersion http client (S n) hist (g2 ++ "/"%char :: g3) =
      Some (Ok (normalizedBuildVersion g3), hist).
Proof.
  intros http client n hist g2 g3 Hg2 Hm.
  destruct (kubeReleaseRegex_bucket_class g3 Hm) as [Hne Hcl].
  assert (Hn : normalizedBuildVersion (g2 ++ "/"%char :: g3) = []).
  { unfold normalizedBuildVersion.
    destruct (kubeReleaseRegex (g2 ++ "/"%char :: g3)) eqn:E; [|reflexivity].
    apply kubeReleaseRegex_bucket_class in E as [_ E].
    rewrite forallb_app in E. apply andb_true_iff in E as [_ E]. discriminate E. }
  assert (Hb : kubeBucketPrefixes (g2 ++ "/"%char :: g3) = Some (g2, g3)).
  { apply kubeBucketPrefixes_spec. repeat split; auto. }
  cbn [KubernetesReleaseVersion]. rewrite Hn. unfold splitVersion. rewrite Hb.
  pose proof (normalizedBuildVersion_nonempty g3 Hm) as Hne'.
  destruct (normalizedBuildVersion g3); [contradiction|reflexivity].
Qed.

Lemma KubernetesReleaseVersion_prefixed_literal_witness :
  KubernetesReleaseVersion (fun _ _ => ConnError []) (lit "v0.0.0") 1 []
    (lit "ci/v1.8.0-alpha.1") = Some (Ok (lit "v1.8.0-alpha.1"), []).
Proof.
  apply (KubernetesReleaseVersion_prefixed_literal (fun _ _ => ConnError [])
           (lit "v0.0.0") 0 [] (lit "ci") (lit "v1.8.0-alpha.1")); [auto|reflexivity].
Defined.

(** X4. A request that matches no form of [kubeBucketPrefixes] (it cannot
    match [kubeReleaseRegex] either) fails with the invalid-version error,
    without fetching a URL. *)
Theorem KubernetesReleaseVersion_invalid :
  forall http client n hist s,
    (forall g2 g3, ~ bucket_rule s g2 g3) ->
    KubernetesReleaseVersion http client (S n) hist s =
      Some (Err (ErrInvalidVersion s), hist).
Proof.
  intros http client n hist s H.
  assert (Hn : normalizedBuildVersion s = []).
  { unfold normalizedBuildVersion.
    destruct (kubeReleaseRegex s) eqn:E; [|reflexivity].
    apply kubeReleaseRegex_bucket_class in E as [Hne Hcl].
    exfalso. apply (H [] s). repeat split; auto. }
  assert (Hb : kubeBucketPrefixes s = None).
  { destruct (kubeBucketPrefixes s) as [[g2 g3]|] eqn:E; [|reflexivity].
    apply kubeBucketPrefixes_spec in E. exfalso. exact (H g2 g3 E). }
  cbn [KubernetesReleaseVersion]. rewrite Hn. unfold splitVersion. now rewrite Hb.
Qed.

Lemma KubernetesReleaseVersion_invalid_witness :
  KubernetesReleaseVersion (fun _ _ => ConnError []) (lit "v0.0.0") 1 []
    (lit "!!!not-a-version") =
    Some (Err (ErrInvalidVersion (lit "!!!not-a-version")), []).
Proof.
  apply KubernetesReleaseVersion_invalid.
  intros g2 g3 H. apply kubeBucketPrefixes_spec in H. discriminate H.
Defined.

(** ** What the resolver fetches *)

Lemma splitVersion_bucket (version bucketURL label : gostring) :
  splitVersion version = Ok (bucketURL, label) ->
  exists seg, (seg = lit "release" \/ seg = lit "ci" \/ seg = lit "ci-cross") /\
              bucketURL = kubeReleaseBucketURL ++ "/"%char :: seg.
Proof.
  unfold splitVersion. intros H.
  destruct (kubeBucketPrefixes version) as [[g2 g3]|] eqn:E; [|discriminate].
  injection H as <- <-. apply kubeBucketPrefixes_spec in E.
  destruct E as (_ & _ & [[-> _]|[Hg _]]).
  - exists (lit "release"). split; [left|]; reflexivity.
  - destruct Hg as [-> | [-> | ->]].
    + exists (lit "release"). split; [left|]; reflexivity.
    + exists (lit "ci"). split; [right; left|]; reflexivity.
    + exists (lit "ci-cross"). split; [right; right|]; reflexivity.
Qed.

Lemma splitVersion_err (version : gostring) (err : goerror) :
  splitVersion version = Err err -> err = ErrInvalidVersion version.
Proof.
  unfold splitVersion. destruct (kubeBucketPrefixes version) as [[g2 g3]|];
    intros H; inversion H; reflexivity.
Qed.

Lemma kubeadmVersion_err (info : gostring) (err : goerror) :
  kubeadmVersion info = Err err -> err = ErrKubeadmVersion info.
Proof.
  unfold kubeadmVersion. destruct (ParseSemantic info); intros H; inversion H; reflexivity.
Qed.

Lemma KubernetesReleaseVersion_trace http client fuel :
  forall hist version res hist',
    KubernetesReleaseVersion http client fuel hist version = Some (res, hist') ->
    exists urls, hist' = hist ++ urls /\ Forall release_label_url urls /\
                 List.length urls <= fuel.
Proof.
  induction fuel as [|fuel IH]; intros hist version res hist' H; [discriminate|].
  assert (Hnil : 0 <= S fuel /\ hist = hist ++ []) by (rewrite app_nil_r; split; [lia|reflexivity]).
  cbn [KubernetesReleaseVersion] in H.
  destruct (normalizedBuildVersion version) as [|c0 v0] eqn:E0.
  2:{ injection H as _ <-. exists []. simpl. intuition. }
  destruct (splitVersion version) as [[bucketURL label]|err] eqn:Es.
  2:{ injection H as _ <-. exists []. simpl. intuition. }
  destruct (normalizedBuildVersion label) as [|c1 v1] eqn:E1.
  2:{ injection H as _ <-. exists []. simpl. intuition. }
  destruct (kubeReleaseLabelRegex label) eqn:El.
  2:{ injection H as _ <-. exists []. simpl. intuition. }
  assert (Hu : release_label_url (bucketURL ++ "/"%char :: label ++ lit ".txt")).
  { destruct (splitVersion_bucket _ _ _ Es) as (seg & Hseg & ->).
    exists seg, label. split; [exact Hseg|split; [exact El|]].
    now rewrite <- app_assoc. }
  set (url := bucketURL ++ "/"%char :: label ++ lit ".txt") in *.
  assert (Hrec : forall body,
             KubernetesReleaseVersion http client fuel (hist ++ [url]) body =
               Some (res, hist') ->
             exists urls, hist' = hist ++ urls /\ Forall release_label_url urls /\
                          List.length urls <= S fuel).
  { intros body Hb. apply IH in Hb as (urls & -> & Hf & Hl).
    exists (url :: urls). rewrite <- app_assoc. simpl.
    split; [reflexivity|split; [constructor; assumption|lia]]. }
  assert (Hone : exists urls, hist ++ [url] = hist ++ urls /\
                   Forall release_label_url urls /\ List.length urls <= S fuel).
  { exists [url]. simpl. split; [reflexivity|split; [constructor; auto|lia]]. }
  destruct (fetchFromURL http hist url) as [body|err].
  - exact (Hrec body H).
  - destruct (negb (isStatus404Error err)).
    + injection H as _ <-. exact Hone.
    + destruct (kubeadmVersion client) as [body|err'].
      * exact (Hrec body H).
      * injection H as _ <-. exact Hone.
Qed.

Lemma KubernetesReleaseVersion_no_404 http client fuel :
  forall hist version err hist',
    KubernetesReleaseVersion http client fuel hist version = Some (Err err, hist') ->
    isStatus404Error err = false.
Proof.
  induction fuel as [|fuel IH]; intros hist version err hist' H; [discriminate|].
  cbn [KubernetesReleaseVersion] in H.
  destruct (normalizedBuildVersion version) as [|c0 v0]; [|discriminate].
  destruct (splitVersion version) as [[bucketURL label]|err0] eqn:Es.
  2:{ injection H as ->. apply splitVersion_err in Es. now subst. }
  destruct (normalizedBuildVersion label) as [|c1 v1]; [|discriminate].
  destruct (kubeReleaseLabelRegex label); [|injection H as <- _; reflexivity].
  destruct (fetchFromURL _ _ _) as [body|err0].
  - eapply IH. exact H.
  - destruct (isStatus404Error err0) eqn:E4; simpl in H.
    + destruct (kubeadmVersion client) as [body|err'] eqn:Ek.
      * eapply IH. exact H.
      * injection H as ->. apply kubeadmVersion_err in Ek. now subst.
    + now injection H as -> _.
Qed.

(** X5. Every run of [KubernetesReleaseVersion] only appends to the fetch
    history, and each URL it fetches is a label file [<label>.txt] of a
    label accepted by [kubeReleaseLabelRegex] under
    [https://dl.k8s.io/release], [/ci] or [/ci-cross]; one call fetches at
    most one URL, so the number of fetches is at most the number of calls. *)
Theorem KubernetesReleaseVersion_fetches_label_urls :
  forall http client fuel hist version res hist',
    KubernetesReleaseVersion http client fuel hist version = Some (res, hist') ->
    exists urls, hist' = hist ++ urls /\ Forall release_label_url urls /\
                 List.length urls <= fuel.
Proof.
  intros http client fuel hist version res hist' H.
  exact (KubernetesReleaseVersion_trace http client fuel hist version res hist' H).
Qed.

Lemma KubernetesReleaseVersion_fetches_label_urls_witness :
  exists urls, [lit "https://dl.k8s.io/ci/latest.txt"] = [] ++ urls /\
    Forall release_label_url urls /\ List.length urls <= 5.
Proof.
  apply (KubernetesReleaseVersion_fetches_label_urls
           (fun _ _ => Response 200%Z (lit "200 OK") (BodyOk (lit " v1.12.0-alpha.1 ")))
           (lit "v0.0.0") 5 [] (lit "ci/latest") (Ok (lit "v1.12.0-alpha.1"))).
  reflexivity.
Defined.

(** X6. The 404 error of a label fetch never leaves
    [KubernetesReleaseVersion]: it is always replaced by the fallback to the
    client version (which may itself fail with its own error). *)
Theorem KubernetesReleaseVersion_never_status404 :
  forall http client fuel hist version err hist',
    KubernetesReleaseVersion http client fuel hist version = Some (Err err, hist') ->
    isStatus404Error err = false.
Proof.
  intros http client fuel hist version err hist' H.
  exact (KubernetesReleaseVersion_no_404 http client fuel hist version err hist' H).
Qed.

Lemma KubernetesReleaseVersion_never_status404_witness :
  isStatus404Error (ErrKubeadmVersion (lit "devel")) = false.
Proof.
  apply (KubernetesReleaseVersion_never_status404
           (fun _ _ => Response 404%Z (lit "404 Not Found") (BodyOk []))
           (lit "devel") 3 [] (lit "stable")
           (ErrKubeadmVersion (lit "devel"))
           [lit "https://dl.k8s.io/release/stable.txt"]).
  reflexivity.
Defined.

(** ** The client-version fallback *)

Lemma digit_char (k : N) : (k < 10)%N ->
  is_digit (ascii_of_N (48 + k)) = true /\
  ((k = 0)%N -> ascii_of_N (48 + k) = "0"%char) /\
  ((k <> 0)%N -> is_nonzero_digit (ascii_of_N (48 + k)) = true).
Proof.
  intros Hk.
  assert (k = 0 \/ k = 1 \/ k = 2 \/ k = 3 \/ k = 4 \/ k = 5 \/ k = 6 \/ k = 7 \/
          k = 8 \/ k = 9)%N as Hc by lia.
  repeat destruct Hc as [->|Hc]; [| | | | | | | | |subst k];
    (split; [reflexivity|split; intros E; [reflexivity || lia|
                                          reflexivity || lia]]).
Qed.

Lemma dec_aux_S (f : nat) (n : N) (acc : gostring) :
  dec_aux (S f) n acc =
    if (n <? 10)%N then ascii_of_N (48 + n mod 10)%N :: acc
    else dec_aux f (n / 10)%N (ascii_of_N (48 + n mod 10)%N :: acc).
Proof. reflexivity. Qed.

(** The digits [dec_aux] prepends: a decimal number without leading
    zeros, when the fuel covers the number of digits. *)
Lemma dec_aux_digits (fuel : nat) :
  forall (n : N) (acc : gostring), (n < 10 ^ N.of_nat (S fuel))%N ->
  exists ds, dec_aux (S fuel) n acc = ds ++ acc /\ is_dec_number ds = true /\
             ((0 < n)%N -> exists d t, ds = d :: t /\ is_nonzero_digit d = true).
Proof.
  induction fuel as [|f IH]; intros n acc Hn;
    (assert (Hm : (n mod 10 < 10)%N) by (apply N.mod_lt; lia));
    destruct (digit_char _ Hm) as (Hd & H0 & Hnz);
    rewrite dec_aux_S; destruct (n <? 10)%N eqn:Elt.
  1, 3:
    apply N.ltb_lt in Elt; rewrite N.mod_small in * by exact Elt;
    exists [ascii_of_N (48 + n)]; split; [reflexivity|];
    destruct (N.eq_dec n 0) as [->|Hne];
    [split; [reflexivity|lia]
    |split; [apply is_dec_number_digit; exact Hd
            |intros _; eexists _, []; split; [reflexivity|auto]]].
  - apply N.ltb_ge in Elt. simpl in Hn. lia.
  - apply N.ltb_ge in Elt.
    assert (Hq : (n / 10 < 10 ^ N.of_nat (S f))%N).
    { rewrite (Nat2N.inj_succ (S f)), N.pow_succ_r' in Hn.
      apply N.Div0.div_lt_upper_bound; lia. }
    assert (Hq0 : (0 < n / 10)%N) by (apply N.div_str_pos; lia).
    destruct (IH (n / 10)%N (ascii_of_N (48 + n mod 10) :: acc) Hq)
      as (ds & Eds & Hds & Hlead).
    destruct (Hlead Hq0) as (d & t & -> & Hdnz).
    exists (d :: t ++ [ascii_of_N (48 + n mod 10)]).
    rewrite Eds. split; [simpl; now rewrite <- app_assoc|].
    assert (Hdd : Ascii.eqb d "0" = false).
    { destruct (Ascii.eqb d "0") eqn:E; [|reflexivity].
      apply Ascii.eqb_eq in E. subst. discriminate. }
    split.
    + assert (G : forall x, is_dec_number (d :: x) =
                            is_nonzero_digit d && forallb is_digit x)
        by (intros x; simpl; now rewrite Hdd).
      rewrite G in Hds |- *. apply andb_true_iff in Hds as [_ Ht].
      rewrite Hdnz, forallb_app, Ht. cbn [forallb]. now rewrite Hd.
    + intros _. exists d, (t ++ [ascii_of_N (48 + n mod 10)]). auto.
Qed.

Lemma pos_lt_pow_size_nat (p : positive) :
  (Npos p < 2 ^ N.of_nat (Pos.size_nat p))%N.
Proof.
  induction p as [p IH|p IH|]; cbn [Pos.size_nat]; rewrite ?Nat2N.inj_succ, ?N.pow_succ_r';
    [change (Npos p~1) with (2 * Npos p + 1)%N
    |change (Npos p~0) with (2 * Npos p)%N |]; [lia|lia|simpl; lia].
Qed.

Lemma fmt_d_dec (n : N) :
  is_dec_number (fmt_d n) = true /\ (fmt_d n = lit "0" <-> n = 0%N).
Proof.
  assert (Hlt : (n < 10 ^ N.of_nat (S (N.size_nat n)))%N).
  { destruct n as [|p]; [simpl; lia|].
    pose proof (pos_lt_pow_size_nat p) as H. cbn [N.size_nat].
    rewrite Nat2N.inj_succ, N.pow_succ_r'.
    pose proof (N.pow_le_mono_l 2 10 (N.of_nat (Pos.size_nat p)) ltac:(lia)). lia. }
  unfold fmt_d. destruct (dec_aux_digits (N.size_nat n) n [] Hlt) as (ds & E & Hds & Hl).
  rewrite E, app_nil_r. split; [exact Hds|].
  split.
  - intros ->. destruct n as [|p]; [reflexivity|].
    destruct (Hl ltac:(lia)) as (d & t & Hdt & Hnz). injection Hdt as <- _.
    vm_compute in Hnz. discriminate Hnz.
  - intros ->. rewrite app_nil_r in E. rewrite <- E. reflexivity.
Qed.

Lemma Split_forallb (p : ascii -> bool) (sep : ascii) (s : gostring) :
  p sep = true -> forallb (forallb p) (Split s sep) = true -> forallb p s = true.
Proof.
  intros Hsep. induction s as [|c t IH]; simpl; [reflexivity|].
  destruct (Ascii.eqb c sep) eqn:E.
  - apply Ascii.eqb_eq in E. subst. simpl. rewrite Hsep. exact IH.
  - destruct (Split t sep) as [|x xs] eqn:Et.
    + exfalso. exact (Split_nonempty t sep Et).
    + simpl. intros H. apply andb_true_iff in H as [Hx Hxs].
      apply andb_true_iff in Hx as [Hc Hx]. rewrite Hc. apply IH.
      simpl. now rewrite Hx, Hxs.
Qed.

Lemma forallb_nth {A : Type} (P : A -> bool) (l : list A) (i : nat) (d : A) :
  P d = true -> forallb P l = true -> P (nth i l d) = true.
Proof.
  intros Hd Hl. destruct (Nat.lt_ge_cases i (List.length l)) as [Hi|Hi].
  - rewrite forallb_forall in Hl. apply Hl, nth_In, Hi.
  - now rewrite nth_overflow.
Qed.

Lemma parse_extra_pre (r pre build : gostring) :
  parse_extra r = Some (pre, build) ->
  forallb (forallb ident_class) (Split pre ".") = true.
Proof.
  assert (Hdot : forall s, dot_idents s = true ->
                   forallb (forallb ident_class) (Split s ".") = true).
  { intros s. unfold dot_idents. apply forallb_impl.
    intros x Hx. apply andb_true_iff in Hx as [_ Hx]. exact Hx. }
  unfold parse_extra. destruct r as [|c t].
  - intros H. injection H as <- _. reflexivity.
  - destruct (Ascii.eqb c "-").
    + destruct (break_at "+" t) as [p b].
      destruct (dot_idents p) eqn:Ep; [|discriminate].
      destruct b as [b|]; [destruct (dot_idents b); [|discriminate]|];
        intros H; injection H as <- _; exact (Hdot p Ep).
    + destruct (Ascii.eqb c "+"); [|discriminate].
      destruct (dot_idents t); [|discriminate].
      intros H. injection H as <- _. reflexivity.
Qed.

Lemma ParseSemantic_pre (s : gostring) (v : Version) :
  ParseSemantic s = Some v ->
  forallb (forallb ident_class) (Split (PreRelease v) ".") = true.
Proof.
  unfold ParseSemantic.
  destruct (span_digits (strip_v s)) as [a r1].
  destruct r1 as [|c1 r1']; [discriminate|].
  destruct (negb (Ascii.eqb c1 ".")); [discriminate|].
  destruct (span_digits r1') as [b r2].
  destruct r2 as [|c2 r2']; [discriminate|].
  destruct (negb (Ascii.eqb c2 ".")); [discriminate|].
  destruct (span_digits r2') as [c r3].
  destruct (is_dec_number a && is_dec_number b && is_dec_number c); [|discriminate].
  destruct (parse_extra r3) as [[pre build]|] eqn:E; [|discriminate].
  intros H. injection H as <-. exact (parse_extra_pre r3 pre build E).
Qed.

Lemma ident_suffix (c : ascii) : ident_class c = true -> release_suffix_class c = true.
Proof.
  unfold ident_class, release_suffix_class.
  destruct (is_alnum c), (c =? "-")%char, (c =? "_")%char, (c =? ".")%char,
    (c =? "+")%char; simpl; auto.
Qed.

Lemma kubeadmVersion_literal (info r : gostring) :
  kubeadmVersion info = Ok r ->
  (exists rest, r = "v"%char :: rest) /\ kubeReleaseRegex r = true.
Proof.
  unfold kubeadmVersion. destruct (ParseSemantic info) as [v|] eqn:Ev; [|discriminate].
  intros H. injection H as <-. split; [eexists; reflexivity|].
  apply kubeReleaseRegex_literal_form.
  pose proof (ParseSemantic_pre info v Ev) as Hpre.
  assert (Hs : forallb (forallb release_suffix_class) (Split (PreRelease v) ".") = true).
  { revert Hpre. apply forallb_impl. intros x. apply forallb_impl, ident_suffix. }
  assert (Hn : forall i, forallb release_suffix_class
                           (nth i (Split (PreRelease v) ".") []) = true).
  { intros i. apply forallb_nth; [reflexivity|exact Hs]. }
  set (pre' := if 0 <? List.length (PreRelease v) then _ else _).
  assert (Hsuf : forallb release_suffix_class pre' = true).
  { subst pre'. destruct (0 <? List.length (PreRelease v)).
    - cbn [forallb]. change (release_suffix_class "-") with true. cbn [andb].
      destruct (2 <? _); [|destruct (_ <? 2)].
      + rewrite forallb_app. cbn [forallb]. now rewrite !Hn.
      + rewrite forallb_app. now rewrite Hn.
      + exact (Split_forallb _ "." _ eq_refl Hs).
    - exact (Split_forallb _ "." _ eq_refl Hs). }
  exists ["v"%char], (fmt_d (Major v)), (fmt_d (Minor v)), (fmt_d (Patch v)), pre'.
  split; [right; reflexivity|].
  split; [reflexivity|].
  repeat split; try apply fmt_d_dec; exact Hsuf.
Qed.

(** X7. Every string [kubeadmVersion] prints is a release literal: it
    starts with [v], matches [kubeReleaseRegex], and [normalizedBuildVersion]
    leaves it unchanged, so the fallback needs no further lookup.  (The
    parser it calls is modelled from the spec.) *)
Theorem kubeadmVersion_returns_literal :
  forall info r,
    kubeadmVersion info = Ok r ->
    (exists rest, r = "v"%char :: rest) /\ kubeReleaseRegex r = true /\
    normalizedBuildVersion r = r.
Proof.
  intros info r H. destruct (kubeadmVersion_literal info r H) as [Hv Hm].
  split; [exact Hv|split; [exact Hm|]].
  exact (normalizedBuildVersion_fixed r Hv Hm).
Qed.

Lemma kubeadmVersion_returns_literal_witness :
  (exists rest, lit "v1.11.0-beta.0" = "v"%char :: rest) /\
  kubeReleaseRegex (lit "v1.11.0-beta.0") = true /\
  normalizedBuildVersion (lit "v1.11.0-beta.0") = lit "v1.11.0-beta.0".
Proof.
  apply (kubeadmVersion_returns_literal (lit "v1.11.0-beta.0.55+abc")).
  reflexivity.
Defined.

(** X8. When the label file is missing (status 404) and the client version
    parses, [KubernetesReleaseVersion] returns exactly the client's
    [kubeadmVersion], after that single fetch and one more call. *)
Theorem KubernetesReleaseVersion_404_gives_client_version :
  forall http client n hist version bucketURL versionLabel status body fallback,
    normalizedBuildVersion version = [] ->
    splitVersion version = Ok (bucketURL, versionLabel) ->
    normalizedBuildVersion versionLabel = [] ->
    kubeReleaseLabelRegex versionLabel = true ->
    let url := bucketURL ++ "/"%char :: versionLabel ++ lit ".txt" in
    http hist url = Response 404%Z status body ->
    kubeadmVersion client = Ok fallback ->
    KubernetesReleaseVersion http client (S (S n)) hist version =
      Some (Ok fallback, hist ++ [url]).
Proof.
  intros http client n hist version bucketURL versionLabel status body fallback
    H0 H1 H2 H3 url Hget Hk.
  rewrite (KubernetesReleaseVersion_fetch_step http client (S n) hist version
             bucketURL versionLabel H0 H1 H2 H3).
  fold url. unfold fetchFromURL. rewrite Hget. cbn. rewrite Hk.
  destruct (kubeadmVersion_literal client fallback Hk) as [[rest Hv] Hm].
  pose proof (normalizedBuildVersion_fixed fallback (ex_intro _ rest Hv) Hm) as Hf.
  cbn [KubernetesReleaseVersion]. rewrite Hf, Hv. reflexivity.
Qed.

Lemma KubernetesReleaseVersion_404_gives_client_version_witness :
  KubernetesReleaseVersion (fun _ _ => Response 404%Z (lit "404 Not Found") (BodyOk []))
    (lit "v1.11.0-beta.0.55+abc") 2 [] (lit "ci/latest-1.11") =
    Some (Ok (lit "v1.11.0-beta.0"), [lit "https://dl.k8s.io/ci/latest-1.11.txt"]).
Proof.
  apply (KubernetesReleaseVersion_404_gives_client_version
           (fun _ _ => Response 404%Z (lit "404 Not Found") (BodyOk []))
           (lit "v1.11.0-beta.0.55+abc") 0 [] (lit "ci/latest-1.11")
           (lit "https://dl.k8s.io/ci") (lit "latest-1.11")
           (lit "404 Not Found") (BodyOk [])); reflexivity.
Defined.

(** ** strings.TrimSpace *)

Lemma runes_cons (b0 : ascii) (s1 : gostring) :
  runes (b0 :: s1) =
    match s1 with
    | [] => [[b0]]
    | b1 :: s2 =>
        if utf8_2 b0 b1 then [b0; b1] :: runes s2 else
        match s2 with
        | [] => [b0] :: runes s1
        | b2 :: s3 =>
            if utf8_3 b0 b1 b2 then [b0; b1; b2] :: runes s3 else
            match s3 with
            | [] => [b0] :: runes s1
            | b3 :: s4 =>
                if utf8_4 b0 b1 b2 b3 then [b0; b1; b2; b3] :: runes s4
                else [b0] :: runes s1
            end
        end
    end.
Proof. reflexivity. Qed.

Lemma runes_concat_bound (n : nat) :
  forall s : gostring, List.length s <= n -> List.concat (runes s) = s.
Proof.
  induction n as [|n IH]; intros s Hs.
  - destruct s; [reflexivity|simpl in Hs; lia].
  - destruct s as [|b0 s1]; [reflexivity|]. rewrite runes_cons.
    simpl in Hs.
    destruct s1 as [|b1 [|b2 [|b3 s4]]];
      repeat match goal with |- context [if ?b then _ else _] => destruct b end;
      cbn [List.concat app];
      try (rewrite IH by (simpl in *; lia)); reflexivity.
Qed.

Lemma runes_concat (s : gostring) : List.concat (runes s) = s.
Proof. exact (runes_concat_bound (List.length s) s (le_n _)). Qed.

Lemma drop_spaces_spec (rs : list gostring) :
  exists L, rs = L ++ drop_spaces rs /\ Forall (fun r => IsSpace r = true) L /\
            match drop_spaces rs with [] => True | r :: _ => IsSpace r = false end.
Proof.
  induction rs as [|r rs IH].
  - exists nil. simpl. split; [reflexivity|split; [constructor|exact I]].
  - destruct IH as (L & HL & HF & Hh).
    simpl. destruct (IsSpace r) eqn:E.
    + exists (r :: L). simpl. rewrite <- HL.
      split; [reflexivity|split; [constructor; assumption|exact Hh]].
    + exists nil. simpl. split; [reflexivity|split; [constructor|exact E]].
Qed.

(** X10. [TrimSpace] removes exactly the leading and the trailing white
    space: the runes of [s] split into white-space runes [L], a middle part
    [M] and white-space runes [R]; the result is the bytes of [M], which
    neither starts nor ends with a white-space rune; and [s] is [L], the
    result and [R] put back together. *)
Theorem TrimSpace_strips_exactly_spaces :
  forall s,
    exists L M R,
      runes s = L ++ M ++ R /\
      Forall (fun r => IsSpace r = true) L /\ Forall (fun r => IsSpace r = true) R /\
      TrimSpace s = List.concat M /\
      s = List.concat L ++ TrimSpace s ++ List.concat R /\
      match M with [] => True | r :: _ => IsSpace r = false end /\
      match rev M with [] => True | r :: _ => IsSpace r = false end.
Proof.
  intros s. unfold TrimSpace.
  destruct (drop_spaces_spec (runes s)) as (L & HL & HFL & Hh1).
  set (M1 := drop_spaces (runes s)) in *.
  destruct (drop_spaces_spec (rev M1)) as (R' & HR & HFR & Hh2).
  set (M2 := drop_spaces (rev M1)) in *.
  assert (HM1 : M1 = rev M2 ++ rev R').
  { rewrite <- rev_app_distr, <- HR, rev_involutive. reflexivity. }
  exists L, (rev M2), (rev R').
  assert (Hr : runes s = L ++ rev M2 ++ rev R') by (rewrite HL at 1; now rewrite HM1).
  split; [exact Hr|].
  split; [exact HFL|].
  split; [apply Forall_rev; exact HFR|].
  split; [reflexivity|].
  split.
  - rewrite <- (runes_concat s) at 1. rewrite Hr, !concat_app. reflexivity.
  - split.
    + rewrite HM1 in Hh1. destruct (rev M2) as [|r t]; [exact I|exact Hh1].
    + rewrite rev_involutive. exact Hh2.
Qed.

(** ** KubernetesVersionToImageTag *)

(** X11. The strings [KubernetesVersionToImageTag] leaves unchanged are
    exactly those made only of the bytes [-], [a-z], [A-Z], [0-9], [_]
    and [.]. *)
Theorem KubernetesVersionToImageTag_fixed_iff :
  forall s, KubernetesVersionToImageTag s = s <-> forallb image_tag_class s = true.
Proof.
  intros s. split.
  - intros E. rewrite <- E. apply KubernetesVersionToImageTag_class.
  - apply sanitize_allowed.
Qed.

(** X12. On an ASCII string, [KubernetesVersionToImageTag] works byte by
    byte: each byte of the class is kept in place and every other byte
    becomes [_]. *)
Theorem KubernetesVersionToImageTag_ascii_bytewise :
  forall s, forallb is_ascii_byte s = true ->
    KubernetesVersionToImageTag s =
      map (fun c => if image_tag_class c then c else "_"%char) s.
Proof.
  intros s H. unfold KubernetesVersionToImageTag. rewrite runes_ascii by exact H.
  clear H. induction s as [|c t IH]; [reflexivity|].
  simpl. rewrite IH. destruct (image_tag_class c); reflexivity.
Qed.

Lemma KubernetesVersionToImageTag_ascii_bytewise_witness :
  KubernetesVersionToImageTag (lit "v1.8.0+abc/x y") = lit "v1.8.0_abc_x_y".
Proof.
  rewrite (KubernetesVersionToImageTag_ascii_bytewise (lit "v1.8.0+abc/x y"))
    by reflexivity.
  reflexivity.
Defined.

(** ** KubernetesIsCIVersion and splitVersion *)

Lemma HasPrefix_app (p x y : gostring) : HasPrefix (p ++ x) (p ++ y) = HasPrefix x y.
Proof.
  induction p as [|c p IH]; [reflexivity|]. simpl. now rewrite Ascii.eqb_refl.
Qed.

(** X13. [KubernetesIsCIVersion] agrees with [splitVersion]: a version
    counts as a CI version exactly when [splitVersion] accepts it and sends
    it to a bucket URL under [https://dl.k8s.io/ci]. *)
Theorem KubernetesIsCIVersion_iff_ci_bucket :
  forall s,
    KubernetesIsCIVersion s = true <->
    exists url label, splitVersion s = Ok (url, label) /\
                      HasPrefix url (kubeReleaseBucketURL ++ lit "/ci") = true.
Proof.
  intros s. unfold KubernetesIsCIVersion, splitVersion.
  destruct (kubeBucketPrefixes s) as [[g2 g3]|].
  - destruct (HasPrefix g2 (lit "ci")) eqn:E.
    + split; [|reflexivity]. intros _. eexists _, _. split; [reflexivity|].
      rewrite HasPrefix_app. exact E.
    + split; [discriminate|]. intros (url & label & H & Hp).
      injection H as <- _. vm_compute in Hp. discriminate Hp.
  - split; [discriminate|]. intros (url & label & H & _). discriminate H.
Qed.

(** ** kubeReleaseLabelRegex *)

Lemma span_lower_spec (s a r : gostring) :
  span_lower s = (a, r) ->
  s = a ++ r /\ forallb is_lower a = true /\
  match r with [] => True | x :: _ => is_lower x = false end.
Proof.
  revert a r. induction s as [|c t IH]; intros a r H; simpl in H.
  - injection H as <- <-. simpl. auto.
  - destruct (is_lower c) eqn:Ec.
    + destruct (span_lower t) as [a' r'] eqn:Et. injection H as <- <-.
      destruct (IH a' r' eq_refl) as (-> & Ha & Hr). simpl. rewrite Ec. auto.
    + injection H as <- <-. simpl. auto.
Qed.

Lemma span_lower_app (a r : gostring) :
  forallb is_lower a = true ->
  match r with [] => True | x :: _ => is_lower x = false end ->
  span_lower (a ++ r) = (a, r).
Proof.
  intros Ha Hr. induction a as [|c a IH].
  - destruct r as [|x r]; [reflexivity|]. simpl. now rewrite Hr.
  - simpl in Ha. apply andb_true_iff in Ha as [Hc Ha].
    simpl. rewrite Hc, IH by exact Ha. reflexivity.
Qed.

(** X14. [kubeReleaseLabelRegex] accepts exactly the non-empty runs of
    lower-case letters, optionally followed by [-] and a non-empty run of
    [-], word characters and [.]. *)
Theorem kubeReleaseLabelRegex_iff_label_form :
  forall s, kubeReleaseLabelRegex s = true <-> label_form s.
Proof.
  intros s. unfold kubeReleaseLabelRegex. split.
  - destruct (span_lower s) as [a r] eqn:E.
    destruct (span_lower_spec s a r E) as (-> & Ha & _).
    destruct a as [|c a']; [discriminate|].
    intros H. exists (c :: a'), r. split; [reflexivity|split; [discriminate|split; [exact Ha|]]].
    destruct r as [|x u]; [now left|right].
    apply andb_true_iff in H as [Hx Hu]. apply Ascii.eqb_eq in Hx. subst x.
    exists u. split; [reflexivity|].
    destruct u as [|y u]; [discriminate|]. split; [discriminate|exact Hu].
  - intros (a & t & -> & Hne & Ha & Ht).
    assert (Hr : match t with [] => True | x :: _ => is_lower x = false end).
    { destruct Ht as [->|(u & -> & _)]; [exact I|reflexivity]. }
    rewrite (span_lower_app a t Ha Hr).
    destruct a as [|c a']; [contradiction|].
    destruct Ht as [->|(u & -> & Hu & Hc)]; [reflexivity|].
    destruct u as [|y u]; [contradiction|]. exact Hc.
Qed.

(** ** More of KubernetesReleaseVersion and normalizedBuildVersion *)

Lemma bucket_rule_not_literal (s g2 g3 : gostring) :
  bucket_rule s g2 g3 -> kubeReleaseRegex g3 = false -> kubeReleaseRegex s = false.
Proof.
  intros (_ & _ & [[-> ->]|[_ ->]]) Hg3; [exact Hg3|].
  destruct (kubeReleaseRegex (g2 ++ "/"%char :: g3)) eqn:E; [|reflexivity].
  apply kubeReleaseRegex_bucket_class in E as [_ E].
  rewrite forallb_app in E. apply andb_true_iff in E as [_ E]. discriminate E.
Qed.

(** X16. A request of the bucket form whose last part is neither an exact
    version nor a label ("release/Stable") fails with the no-pattern error,
    without fetching a URL. *)
Theorem KubernetesReleaseVersion_no_pattern :
  forall http client n hist s g2 g3,
    bucket_rule s g2 g3 ->
    kubeReleaseRegex g3 = false ->
    kubeReleaseLabelRegex g3 = false ->
    KubernetesReleaseVersion http client (S n) hist s =
      Some (Err (ErrNoPattern s), hist).
Proof.
  intros http client n hist s g2 g3 Hb Hr Hl.
  assert (Hn : normalizedBuildVersion s = []).
  { unfold normalizedBuildVersion. now rewrite (bucket_rule_not_literal s g2 g3 Hb Hr). }
  assert (Hn3 : normalizedBuildVersion g3 = []) by (unfold normalizedBuildVersion; now rewrite Hr).
  apply kubeBucketPrefixes_spec in Hb.
  cbn [KubernetesReleaseVersion]. rewrite Hn. unfold splitVersion. rewrite Hb.
  cbv zeta. rewrite Hn3, Hl. reflexivity.
Qed.

Lemma KubernetesReleaseVersion_no_pattern_witness :
  KubernetesReleaseVersion (fun _ _ => ConnError []) (lit "v0.0.0") 1 []
    (lit "release/Stable-1") = Some (Err (ErrNoPattern (lit "release/Stable-1")), []).
Proof.
  apply (KubernetesReleaseVersion_no_pattern (fun _ _ => ConnError []) (lit "v0.0.0")
           0 [] (lit "release/Stable-1") (lit "release") (lit "Stable-1")).
  - apply kubeBucketPrefixes_spec. reflexivity.
  - reflexivity.
  - reflexivity.
Defined.

(** ** Printing and re-parsing the client version *)

Lemma N_of_digits_snoc (ds : gostring) (x : ascii) :
  N_of_digits (ds ++ [x]) = (N_of_digits ds * 10 + (N_of_ascii x - 48))%N.
Proof. unfold N_of_digits. now rewrite fold_left_app. Qed.

Lemma dec_aux_value (fuel : nat) :
  forall (n : N) (acc : gostring), (n < 10 ^ N.of_nat (S fuel))%N ->
  exists ds, dec_aux (S fuel) n acc = ds ++ acc /\ N_of_digits ds = n.
Proof.
  assert (Hd : forall k, (k < 10)%N -> (N_of_ascii (ascii_of_N (48 + k)) - 48)%N = k).
  { intros k Hk. rewrite N_ascii_embedding by lia. lia. }
  induction fuel as [|f IH]; intros n acc Hn;
    (assert (Hm : (n mod 10 < 10)%N) by (apply N.mod_lt; lia));
    rewrite dec_aux_S; destruct (n <? 10)%N eqn:Elt.
  1, 3:
    apply N.ltb_lt in Elt; exists [ascii_of_N (48 + n mod 10)]; split; [reflexivity|];
    unfold N_of_digits; cbn [fold_left]; rewrite Hd by exact Hm;
    rewrite N.mod_small by exact Elt; lia.
  - apply N.ltb_ge in Elt. simpl in Hn. lia.
  - apply N.ltb_ge in Elt.
    assert (Hq : (n / 10 < 10 ^ N.of_nat (S f))%N).
    { rewrite (Nat2N.inj_succ (S f)), N.pow_succ_r' in Hn.
      apply N.Div0.div_lt_upper_bound; lia. }
    destruct (IH (n / 10)%N (ascii_of_N (48 + n mod 10) :: acc) Hq) as (ds & Eds & Hv).
    exists (ds ++ [ascii_of_N (48 + n mod 10)]). rewrite Eds, <- app_assoc.
    split; [reflexivity|]. rewrite N_of_digits_snoc, Hv, Hd by exact Hm.
    pose proof (N.div_mod n 10 ltac:(lia)). lia.
Qed.

Lemma fmt_d_bound (n : N) : (n < 10 ^ N.of_nat (S (N.size_nat n)))%N.
Proof.
  destruct n as [|p]; [simpl; lia|].
  pose proof (pos_lt_pow_size_nat p) as H. cbn [N.size_nat].
  rewrite Nat2N.inj_succ, N.pow_succ_r'.
  pose proof (N.pow_le_mono_l 2 10 (N.of_nat (Pos.size_nat p)) ltac:(lia)). lia.
Qed.

(** [%d] read back with [N_of_digits] gives the number printed. *)
Lemma N_of_digits_fmt_d (n : N) : N_of_digits (fmt_d n) = n.
Proof.
  unfold fmt_d. destruct (dec_aux_value _ n [] (fmt_d_bound n)) as (ds & E & Hv).
  rewrite E, app_nil_r. exact Hv.
Qed.

Lemma ident_no_sep (x : gostring) (sep : ascii) :
  ident_class sep = false -> forallb ident_class x = true ->
  forallb (fun c => negb (Ascii.eqb c sep)) x = true.
Proof.
  intros Hs. induction x as [|c x IH]; simpl; [reflexivity|].
  intros H. apply andb_true_iff in H as [Hc Hx]. rewrite IH by exact Hx.
  destruct (Ascii.eqb c sep) eqn:E; [|reflexivity].
  apply Ascii.eqb_eq in E. subst. rewrite Hs in Hc. discriminate.
Qed.

Lemma dot_idents_two (x y : gostring) :
  nonempty x && forallb ident_class x = true ->
  nonempty y && forallb ident_class y = true ->
  Split (x ++ "."%char :: y) "." = [x; y] /\ dot_idents (x ++ "."%char :: y) = true.
Proof.
  intros Hx Hy.
  assert (Hx' := Hx). assert (Hy' := Hy).
  apply andb_true_iff in Hx' as [_ Hx']. apply andb_true_iff in Hy' as [_ Hy'].
  assert (E : Split (x ++ "."%char :: y) "." = [x; y]).
  { rewrite Split_app_sep by exact (ident_no_sep x "." eq_refl Hx').
    rewrite Split_single by exact (ident_no_sep y "." eq_refl Hy'). reflexivity. }
  split; [exact E|]. unfold dot_idents. rewrite E. simpl. now rewrite Hx, Hy.
Qed.

Lemma parse_extra_cases (r pre build : gostring) :
  parse_extra r = Some (pre, build) -> pre = [] \/ dot_idents pre = true.
Proof.
  unfold parse_extra. destruct r as [|c t].
  - intros H. injection H as <- _. now left.
  - destruct (Ascii.eqb c "-").
    + destruct (break_at "+" t) as [p b].
      destruct (dot_idents p) eqn:Ep; [|discriminate].
      destruct b as [b|]; [destruct (dot_idents b); [|discriminate]|];
        intros H; injection H as <- _; now right.
    + destruct (Ascii.eqb c "+"); [|discriminate].
      destruct (dot_idents t); [|discriminate].
      intros H. injection H as <- _. now left.
Qed.

Lemma ParseSemantic_pre_cases (s : gostring) (v : Version) :
  ParseSemantic s = Some v -> PreRelease v = [] \/ dot_idents (PreRelease v) = true.
Proof.
  unfold ParseSemantic.
  destruct (span_digits (strip_v s)) as [a r1].
  destruct r1 as [|c1 r1']; [discriminate|].
  destruct (negb (Ascii.eqb c1 ".")); [discriminate|].
  destruct (span_digits r1') as [b r2].
  destruct r2 as [|c2 r2']; [discriminate|].
  destruct (negb (Ascii.eqb c2 ".")); [discriminate|].
  destruct (span_digits r2') as [c r3].
  destruct (is_dec_number a && is_dec_number b && is_dec_number c); [|discriminate].
  destruct (parse_extra r3) as [[pre build]|] eqn:E; [|discriminate].
  intros H. injection H as <-. exact (parse_extra_cases r3 pre build E).
Qed.

Lemma kubeadmVersion_pre_shape (pre : gostring) :
  pre = [] \/ dot_idents pre = true ->
  let pre' :=
    if 0 <? List.length pre then
      let split := Split pre "." in
      let pre :=
        if 2 <? List.length split then
          nth 0 split [] ++ "."%char :: nth 1 split []
        else if List.length split <? 2 then
          nth 0 split [] ++ lit ".0"
        else pre in
      "-"%char :: pre
    else pre in
  (pre' = [] \/ exists q, pre' = "-"%char :: q /\ two_idents q).
Proof.
  intros Hpre pre'. subst pre'.
  destruct pre as [|c t]; [now left|]. right.
  destruct Hpre as [Hpre|Hpre]; [discriminate|].
  set (pre := c :: t) in *. cbv zeta.
  assert (Hseg : forall i, i < List.length (Split pre ".") ->
            nonempty (nth i (Split pre ".") []) &&
            forallb ident_class (nth i (Split pre ".") []) = true).
  { intros i Hi. unfold dot_idents in Hpre. rewrite forallb_forall in Hpre.
    apply Hpre, nth_In, Hi. }
  change (0 <? List.length pre) with true. cbv iota.
  eexists. split; [reflexivity|].
  destruct (2 <? List.length (Split pre ".")) eqn:E2;
    [|destruct (List.length (Split pre ".") <? 2) eqn:E1].
  - apply Nat.ltb_lt in E2.
    exists (nth 0 (Split pre ".") []), (nth 1 (Split pre ".") []).
    split; [reflexivity|]. split; apply Hseg; lia.
  - apply Nat.ltb_lt in E1.
    exists (nth 0 (Split pre ".") []), (lit "0").
    split; [reflexivity|]. split; [apply Hseg|reflexivity].
    destruct (Split pre ".") eqn:Es; [destruct (Split_nonempty _ _ Es)|simpl; lia].
  - apply Nat.ltb_ge in E2. apply Nat.ltb_ge in E1.
    destruct (Split pre ".") as [|x [|y [|z l]]] eqn:Es; simpl in E1, E2; try lia.
    exists x, y. split; [exact (Split_two pre x y "." Es)|].
    split; [apply (Hseg 0)|apply (Hseg 1)]; try rewrite Es; simpl; lia.
Qed.

Lemma span_digits_all (a : gostring) :
  forallb is_digit a = true -> span_digits a = (a, []).
Proof.
  induction a as [|c a IH]; simpl; [reflexivity|].
  intros H. apply andb_true_iff in H as [Hc Ha]. now rewrite Hc, IH.
Qed.

Lemma fmt_d_digits (n : N) : forallb is_digit (fmt_d n) = true.
Proof. apply is_dec_number_digits, fmt_d_dec. Qed.

Lemma ParseSemantic_printed (M m p : N) (pre' q : gostring) :
  (pre' = [] /\ q = []) \/ (pre' = "-"%char :: q /\ two_idents q) ->
  ParseSemantic ("v"%char :: fmt_d M ++ "."%char :: fmt_d m ++ "."%char ::
                 fmt_d p ++ pre') = Some (mkVersion M m p q []).
Proof.
  intros Hq. unfold ParseSemantic.
  change (strip_v ("v"%char :: ?x)) with x.
  rewrite span_digits_app by (apply fmt_d_digits || reflexivity).
  change (negb (Ascii.eqb "." ".")) with false. cbv iota.
  rewrite span_digits_app by (apply fmt_d_digits || reflexivity).
  change (negb (Ascii.eqb "." ".")) with false. cbv iota.
  assert (Hp : span_digits (fmt_d p ++ pre') = (fmt_d p, pre')).
  { destruct Hq as [[-> _]|[-> _]].
    - rewrite app_nil_r. apply span_digits_all, fmt_d_digits.
    - apply span_digits_app; [apply fmt_d_digits|reflexivity]. }
  rewrite Hp, !(proj1 (fmt_d_dec _)). cbv iota.
  assert (He : parse_extra pre' = Some (q, [])).
  { destruct Hq as [[-> ->]|[-> (x & y & -> & Hx & Hy)]]; [reflexivity|].
    unfold parse_extra. change (Ascii.eqb "-" "-") with true. cbv iota.
    destruct (dot_idents_two x y Hx Hy) as [_ Hd].
    apply andb_true_iff in Hx as [_ Hx']. apply andb_true_iff in Hy as [_ Hy'].
    rewrite break_at_none.
    - now rewrite Hd.
    - rewrite forallb_app. simpl.
      rewrite (ident_no_sep x "+" eq_refl Hx'), (ident_no_sep y "+" eq_refl Hy').
      reflexivity. }
  rewrite He, !N_of_digits_fmt_d. reflexivity.
Qed.

(** X17. [kubeadmVersion] is idempotent on what it prints: fed its own
    output, it prints the same string again (the numbers are read back,
    the pre-release already has two segments and there is no build
    metadata).  (The parser it calls is modelled from the spec.) *)
Theorem kubeadmVersion_idempotent :
  forall info r, kubeadmVersion info = Ok r -> kubeadmVersion r = Ok r.
Proof.
  intros info r H. unfold kubeadmVersion in H.
  destruct (ParseSemantic info) as [v|] eqn:Ev; [|discriminate].
  injection H as <-.
  pose proof (kubeadmVersion_pre_shape (PreRelease v) (ParseSemantic_pre_cases info v Ev))
    as Hshape.
  cbv zeta in Hshape.
  set (pre' := if 0 <? List.length (PreRelease v) then _ else _) in *.
  assert (Hq : exists q, (pre' = [] /\ q = []) \/ (pre' = "-"%char :: q /\ two_idents q)).
  { destruct Hshape as [E|(q & E & Hq)]; [exists []; now left|exists q; now right]. }
  destruct Hq as [q Hq].
  unfold kubeadmVersion at 1. rewrite (ParseSemantic_printed _ _ _ pre' q Hq).
  cbn [PreRelease Major Minor Patch]. f_equal. do 6 f_equal.
  destruct Hq as [[-> ->]|[-> (x & y & -> & Hx & Hy)]]; [reflexivity|].
  destruct (dot_idents_two x y Hx Hy) as [Es _].
  assert (Hl : (0 <? List.length (x ++ "."%char :: y)) = true).
  { apply Nat.ltb_lt. rewrite length_app. simpl. lia. }
  rewrite Hl. cbv zeta. rewrite Es. reflexivity.
Qed.

Lemma kubeadmVersion_idempotent_witness :
  kubeadmVersion (lit "v1.11.0-beta.0") = Ok (lit "v1.11.0-beta.0").
Proof.
  apply (kubeadmVersion_idempotent (lit "v1.11.0-beta.0.55+abc")). reflexivity.
Defined.

(** X18. Re-parsing what [kubeadmVersion] prints gives back the major,
    minor and patch numbers of the parsed client version, no build
    metadata, and a pre-release exactly when the client version had one.
    (The parser is modelled from the spec.) *)
Theorem kubeadmVersion_reparse :
  forall info v,
    ParseSemantic info = Some v ->
    exists r q,
      kubeadmVersion info = Ok r /\
      ParseSemantic r = Some (mkVersion (Major v) (Minor v) (Patch v) q []) /\
      (q = [] <-> PreRelease v = []).
Proof.
  intros info v Ev.
  pose proof (kubeadmVersion_pre_shape (PreRelease v) (ParseSemantic_pre_cases info v Ev))
    as Hshape.
  cbv zeta in Hshape.
  set (pre' := if 0 <? List.length (PreRelease v) then _ else _) in *.
  assert (Hempty : pre' = [] <-> PreRelease v = []).
  { unfold pre'. destruct (PreRelease v) as [|c t]; [tauto|].
    change (0 <? List.length (c :: t)) with true. cbv iota.
    split; discriminate. }
  assert (Hq : exists q, ((pre' = [] /\ q = []) \/ (pre' = "-"%char :: q /\ two_idents q))
                         /\ (q = [] <-> pre' = [])).
  { destruct Hshape as [E|(q & E & Hq2)].
    - exists []. split; [now left|tauto].
    - exists q. split; [right; split; [exact E|exact Hq2]|].
      destruct Hq2 as (x & y & Eq & _).
      split; intros H.
      + rewrite Eq in H. destruct x; discriminate H.
      + rewrite E in H. discriminate H. }
  destruct Hq as (q & Hq & Hqe).
  exists ("v"%char :: fmt_d (Major v) ++ "."%char :: fmt_d (Minor v) ++ "."%char ::
          fmt_d (Patch v) ++ pre'), q.
  split; [unfold kubeadmVersion; now rewrite Ev|].
  split; [exact (ParseSemantic_printed _ _ _ pre' q Hq)|].
  rewrite Hqe. exact Hempty.
Qed.

Lemma kubeadmVersion_reparse_witness :
  exists r q,
    kubeadmVersion (lit "v1.9.0-alpha.0.1234+abcdef") = Ok r /\
    ParseSemantic r = Some (mkVersion 1 9 0 q []) /\ (q = [] <-> lit "alpha.0.1234" = []).
Proof.
  apply (kubeadmVersion_reparse (lit "v1.9.0-alpha.0.1234+abcdef")
           (mkVersion 1 9 0 (lit "alpha.0.1234") (lit "abcdef"))).
  reflexivity.
Defined.

(** ** Where a resolved version comes from *)

Lemma normalizedBuildVersion_strip (x r : gostring) :
  normalizedBuildVersion x = r -> r <> [] ->
  kubeReleaseRegex x = true /\ r = "v"%char :: strip_v x.
Proof.
  unfold normalizedBuildVersion. intros E Hne.
  destruct (kubeReleaseRegex x) eqn:H; [|subst r; contradiction].
  split; [reflexivity|]. subst r.
  destruct (strip_v_cases x) as [E|E].
  - rewrite E at 1. simpl. rewrite HasPrefix_nil. exact E.
  - rewrite E. destruct x as [|c t]; [reflexivity|].
    simpl in E. destruct (Ascii.eqb c "v") eqn:Ec.
    + exfalso. apply (f_equal (@List.length ascii)) in E. simpl in E. lia.
    + simpl. now rewrite Ec.
Qed.

Lemma splitVersion_part (version bucketURL label : gostring) :
  splitVersion version = Ok (bucketURL, label) -> version_part version label.
Proof.
  unfold splitVersion. intros H. right.
  destruct (kubeBucketPrefixes version) as [[g2 g3]|]; [|discriminate].
  injection H as _ <-. now exists g2.
Qed.

Lemma fetchFromURL_ok http hist url body :
  fetchFromURL http hist url = Ok body ->
  exists status b, http hist url = Response 200%Z status (BodyOk b) /\ body = TrimSpace b.
Proof.
  unfold fetchFromURL. destruct (http hist url) as [msg|code status bd]; [discriminate|].
  destruct (Z.eqb_spec code 200) as [->|H200]; cbn [negb].
  - destruct bd as [b|msg]; [|discriminate]. intros E. injection E as <-. eauto.
  - destruct (code =? 404)%Z; discriminate.
Qed.

(** A successful result is an accepted part of the request or of a body the
    server sent for a fetched URL, with only [v] added when missing; or it
    is the client version printed by [kubeadmVersion] (the 404 fallback). *)
Lemma KubernetesReleaseVersion_source http client fuel :
  forall hist version r hist',
    KubernetesReleaseVersion http client fuel hist version = Some (Ok r, hist') ->
    (exists x, kubeReleaseRegex x = true /\ r = "v"%char :: strip_v x /\
       (version_part version x \/
        exists h u rest status b,
          hist' = h ++ u :: rest /\
          http h u = Response 200%Z status (BodyOk b) /\
          version_part (TrimSpace b) x)) \/
    kubeadmVersion client = Ok r.
Proof.
  induction fuel as [|fuel IH]; intros hist version r hist' H; [discriminate|].
  cbn [KubernetesReleaseVersion] in H.
  destruct (normalizedBuildVersion version) as [|c0 v0] eqn:E0.
  2:{ injection H as <- _. left.
      destruct (normalizedBuildVersion_strip version _ E0 ltac:(discriminate)) as [Hm Hr].
      exists version. split; [exact Hm|split; [exact Hr|left; now left]]. }
  destruct (splitVersion version) as [[bucketURL label]|err] eqn:Es; [|discriminate].
  destruct (normalizedBuildVersion label) as [|c1 v1] eqn:E1.
  2:{ injection H as <- _. left.
      destruct (normalizedBuildVersion_strip label _ E1 ltac:(discriminate)) as [Hm Hr].
      exists label. split; [exact Hm|split; [exact Hr|left]].
      exact (splitVersion_part _ _ _ Es). }
  destruct (kubeReleaseLabelRegex label); [|discriminate].
  set (url := bucketURL ++ "/"%char :: label ++ lit ".txt") in *.
  destruct (fetchFromURL http hist url) as [body|err] eqn:Ef.
  - destruct (KubernetesReleaseVersion_trace http client fuel _ _ _ _ H)
      as (urls & Eh & _ & _).
    destruct (IH _ _ _ _ H) as [(x & Hm & Hr & Hsrc)|Hk]; [left|now right].
    exists x. split; [exact Hm|split; [exact Hr|right]].
    destruct Hsrc as [Hp|Hsrv]; [|exact Hsrv].
    destruct (fetchFromURL_ok http hist url body Ef) as (status & b & Eget & ->).
    exists hist, url, urls, status, b. split; [|split; [exact Eget|exact Hp]].
    rewrite Eh, <- app_assoc. reflexivity.
  - destruct (negb (isStatus404Error err)); [discriminate|].
    destruct (kubeadmVersion client) as [fb|err'] eqn:Ek; [|discriminate].
    right. destruct fuel as [|fuel']; [discriminate|].
    destruct (kubeadmVersion_literal client fb Ek) as [[rest Hv] Hm].
    pose proof (normalizedBuildVersion_fixed fb (ex_intro _ rest Hv) Hm) as Hf.
    cbn [KubernetesReleaseVersion] in H. rewrite Hf, Hv in H.
    injection H as <- _. rewrite <- Hv. reflexivity.
Qed.

(** C3 (amended). Every string that [KubernetesReleaseVersion] returns
    successfully is [v], then MAJOR.MINOR.PATCH (decimal numbers without
    leading zeros), then a possibly empty suffix over [[-0-9a-zA-Z_.+]].
    The suffix is not normalised: the result is a string [x] accepted by
    [kubeReleaseRegex], with only its leading [v] made sure of, where [x] is
    the request, or the part after its bucket prefix, or the same of a
    trimmed body the server sent for a fetched URL; otherwise it is the
    client version printed by [kubeadmVersion] (the 404 fallback). *)
Theorem KubernetesReleaseVersion_returns_literal_shape :
  forall http client fuel hist version r hist',
    KubernetesReleaseVersion http client fuel hist version = Some (Ok r, hist') ->
    (exists a b c suf,
      r = "v"%char :: a ++ "."%char :: b ++ "."%char :: c ++ suf /\
      is_dec_number a = true /\ is_dec_number b = true /\
      is_dec_number c = true /\ forallb release_suffix_class suf = true) /\
    ((exists x, kubeReleaseRegex x = true /\ r = "v"%char :: strip_v x /\
       (version_part version x \/
        exists h u rest status body,
          hist' = h ++ u :: rest /\
          http h u = Response 200%Z status (BodyOk body) /\
          version_part (TrimSpace body) x)) \/
     kubeadmVersion client = Ok r).
Proof.
  intros http client fuel hist version r hist' H.
  split; [|exact (KubernetesReleaseVersion_source http client fuel hist version r hist' H)].
  destruct (KubernetesReleaseVersion_ok http client fuel hist version r hist' H)
    as [[rest ->] Hm].
  apply kubeReleaseRegex_sound in Hm as (a & b & d & t & Hs & Ha & Hb & Hd & Ht).
  simpl in Hs. exists a, b, [d], t. rewrite Hs.
  repeat split; auto using is_dec_number_digit.
Qed.

Lemma KubernetesReleaseVersion_returns_literal_shape_witness :
  let http := fun (_ : list gostring) (_ : gostring) =>
                Response 200%Z (lit "200 OK") (BodyOk (lit "v1.10.3+x")) in
  KubernetesReleaseVersion http (lit "v1.0.0") 5 [] (lit "stable-1") =
    Some (Ok (lit "v1.10.3+x"), [lit "https://dl.k8s.io/release/stable-1.txt"]) /\
  (exists a b c suf,
    lit "v1.10.3+x" = "v"%char :: a ++ "."%char :: b ++ "."%char :: c ++ suf /\
    is_dec_number a = true /\ is_dec_number b = true /\
    is_dec_number c = true /\ forallb release_suffix_class suf = true) /\
  ((exists x, kubeReleaseRegex x = true /\ lit "v1.10.3+x" = "v"%char :: strip_v x /\
     (version_part (lit "stable-1") x \/
      exists h u rest status body,
        [lit "https://dl.k8s.io/release/stable-1.txt"] = h ++ u :: rest /\
        http h u = Response 200%Z status (BodyOk body) /\
        version_part (TrimSpace body) x)) \/
   kubeadmVersion (lit "v1.0.0") = Ok (lit "v1.10.3+x")).
Proof.
  intros http. split; [reflexivity|].
  apply (KubernetesReleaseVersion_returns_literal_shape http (lit "v1.0.0") 5 []
           (lit "stable-1") _ [lit "https://dl.k8s.io/release/stable-1.txt"]).
  reflexivity.
Defined.

(** ** The length of an image tag *)

Lemma runes_nonempty_bound (n : nat) :
  forall s : gostring, List.length s <= n -> Forall (fun r => r <> []) (runes s).
Proof.
  induction n as [|n IH]; intros s Hs.
  - destruct s; [constructor|simpl in Hs; lia].
  - destruct s as [|b0 s1]; [constructor|]. rewrite runes_cons.
    simpl in Hs.
    destruct s1 as [|b1 [|b2 [|b3 s4]]];
      repeat match goal with |- context [if ?b then _ else _] => destruct b end;
      repeat (apply Forall_cons; [discriminate|]);
      first [apply Forall_nil | apply IH; simpl in *; lia].
Qed.

Lemma runes_nonempty (s : gostring) : Forall (fun r => r <> []) (runes s).
Proof. exact (runes_nonempty_bound (List.length s) s (le_n _)). Qed.

Lemma concat_length_lt (rs : list gostring) :
  Forall (fun r => r <> []) rs ->
  List.length rs <= List.length (List.concat rs) /\
  (List.length rs < List.length (List.concat rs) <->
   exists r, In r rs /\ 2 <= List.length r).
Proof.
  induction rs as [|r rs IH]; intros Hne.
  - simpl. split; [lia|]. split; [lia|]. intros (x & [] & _).
  - inversion Hne as [|? ? Hr Hrs]; subst.
    destruct (IH Hrs) as [Hle Hiff]. simpl. rewrite length_app.
    destruct r as [|c [|d t]]; [contradiction| |].
    + simpl. split; [lia|]. split.
      * intros Hlt. destruct (proj1 Hiff ltac:(lia)) as (x & Hx & Hl).
        exists x. auto.
      * intros (x & [<-|Hx] & Hl); [simpl in Hl; lia|].
        assert (List.length rs < List.length (List.concat rs))
          by (apply Hiff; eauto). lia.
    + simpl. split; [lia|]. split; [intros _; exists (c :: d :: t); simpl; split; [auto|lia]|lia].
Qed.

(** C8 (amended). For every input, every byte of the result is in
    [[A-Za-z0-9_.-]] and the result has one byte per rune of the input (a
    valid UTF-8 encoding, or an invalid byte on its own).  So it is never
    longer than the input; it has the same length when the input is ASCII,
    and it is shorter exactly when the input has a multi-byte rune. *)
Theorem KubernetesVersionToImageTag_total :
  forall s,
    forallb image_tag_class (KubernetesVersionToImageTag s) = true /\
    List.length (KubernetesVersionToImageTag s) = List.length (runes s) /\
    List.length (KubernetesVersionToImageTag s) <= List.length s /\
    (forallb is_ascii_byte s = true ->
     List.length (KubernetesVersionToImageTag s) = List.length s) /\
    (List.length (KubernetesVersionToImageTag s) < List.length s <->
     exists r, In r (runes s) /\ 2 <= List.length r).
Proof.
  intros s. destruct (sanitize_runes (runes s)) as [H1 H2].
  fold (KubernetesVersionToImageTag s) in H1, H2.
  destruct (concat_length_lt (runes s) (runes_nonempty s)) as [Hle Hiff].
  rewrite runes_concat in Hle, Hiff.
  split; [exact H1|split; [exact H2|]].
  rewrite H2. split; [exact Hle|split; [|exact Hiff]].
  intros H. rewrite runes_ascii by exact H. apply List.length_map.
Qed.

Lemma KubernetesVersionToImageTag_total_witness :
  List.length (KubernetesVersionToImageTag (lit "v1.8.0+abc/x")) =
    List.length (lit "v1.8.0+abc/x") /\
  List.length (KubernetesVersionToImageTag [ascii_of_nat 195; ascii_of_nat 169]) <
    List.length [ascii_of_nat 195; ascii_of_nat 169].
Proof.
  split.
  - apply (proj1 (proj2 (proj2 (proj2
             (KubernetesVersionToImageTag_total (lit "v1.8.0+abc/x")))))).
    reflexivity.
  - apply (proj2 (proj2 (proj2 (proj2 (KubernetesVersionToImageTag_total
             [ascii_of_nat 195; ascii_of_nat 169]))))).
    exists [ascii_of_nat 195; ascii_of_nat 169]. split; [left; reflexivity|simpl; lia].
Defined.
